(** * Synergia event-booking API: a shallow embedding of [server.js]

    The development follows the source file top to bottom: JavaScript
    values and the coercions the handlers rely on ([Number], truthiness,
    [===], [+], [>]), the two in-memory arrays, the helper [nextId], and
    the ten route handlers.  The properties of the handlers come last.

    Modelling decisions.
    - A JavaScript number is an IEEE 754 double: [NaN], an infinity or
      a finite double, which is held as the rational it denotes.  What
      produces a number, [+] and the conversion of a string, computes
      the exact rational and rounds it to the nearest double, ties to
      even, with gradual underflow and overflow to an infinity
      ([round64]).  The sign of zero is not kept: no handler can tell
      [-0] from [0] (there is no division, [-0 === 0] holds, both are
      falsy and both are written [0] in a JSON response).
    - The specification speaks of sums of seats as of sums of numbers;
      these are the exact sums [num_plus] and [total_seats], kept apart
      from the rounded ones the handlers compute ([num_add],
      [sum_seats]).
    - Record ids only ever come from the literal [1] of the seed records
      and from [nextId]; they are modelled as integers ([Z]).
    - A request body is the object produced by [express.json()], a finite
      map from property names to JSON values; an absent property reads
      as [undefined].
    - [Number(x)] throws a [TypeError] on an object that carries its own
      (necessarily non-callable) [toString] property.  Inside a handler
      the exception is not caught, so it ends the handler: this is the
      outcome [Uncaught] below.
    - [new Date().toISOString()] is an input of the handler that calls
      it. *)

From Stdlib Require Import ZArith QArith Qreduction Lqa Lia List Ascii String Bool.
From stdpp Require Import base option list strings gmap.

Set Default Proof Using "Type".

(** ** Numbers *)

Inductive num : Type :=
  | NaN
  | Inf (negative : bool)
  | Fin (q : Q).

Definition num_of_Z (z : Z) : num := Fin (inject_Z z).

(** [2^k] for any integer [k]. *)
Definition pow2 (k : Z) : Q :=
  if (0 <=? k)%Z then inject_Z (2 ^ k) else 1 # Z.to_pos (2 ^ (- k)).

(** The integer nearest to [n / d], for [0 < d]; half way between two
    integers, the even one. *)
Definition nearest_even (n d : Z) : Z :=
  let q := (n / d)%Z in
  match (2 * (n mod d) ?= d)%Z with
  | Lt => q
  | Gt => (q + 1)%Z
  | Eq => if Z.even q then q else (q + 1)%Z
  end.

(** The [e] with [2^e <= a / d < 2^(e + 1)], for [0 < a] and [0 < d]. *)
Definition binade (a d : Z) : Z :=
  let e0 := (Z.log2 a - Z.log2 d)%Z in
  if (d * 2 ^ Z.max 0 e0 <=? a * 2 ^ Z.max 0 (- e0))%Z then e0
  else (e0 - 1)%Z.

(** The double nearest to a rational: 53 bits of significand, so the
    doubles around a number of exponent [e] are the multiples of
    [2^(e - 52)]; below exponent -1022 the spacing stays [2^-1074]; a
    result that reaches [2^1024] is an infinity. *)
Definition round64 (q : Q) : num :=
  let n := Qnum q in
  let d := Zpos (Qden q) in
  if (n =? 0)%Z then Fin 0
  else
    let e := binade (Z.abs n) d in
    let k := (Z.max e (-1022) - 52)%Z in
    let m := nearest_even (n * 2 ^ Z.max 0 (- k)) (d * 2 ^ Z.max 0 k) in
    if (971 <? k)%Z || ((k =? 971)%Z && (2 ^ 53 <=? Z.abs m)%Z)
    then Inf (n <? 0)%Z
    else Fin (Qred (inject_Z m * pow2 k)).

(** [a + b] on numbers: the exact sum, rounded. *)
Definition num_add (a b : num) : num :=
  match a, b with
  | NaN, _ | _, NaN => NaN
  | Inf s, Inf t => if Bool.eqb s t then Inf s else NaN
  | Inf s, Fin _ | Fin _, Inf s => Inf s
  | Fin p, Fin q => round64 (Qred (p + q))
  end.

(** [a > b] on numbers: false as soon as one side is [NaN]. *)
Definition num_gt (a b : num) : bool :=
  match a, b with
  | NaN, _ | _, NaN => false
  | Inf s, Inf t => negb s && t
  | Inf s, Fin _ => negb s
  | Fin _, Inf t => t
  | Fin p, Fin q => negb (Qle_bool p q)
  end.

(** [a <= b] on numbers, also false on [NaN]. *)
Definition num_le (a b : num) : bool :=
  match a, b with
  | NaN, _ | _, NaN => false
  | Inf s, Inf t => s || negb t
  | Inf s, Fin _ => s
  | Fin _, Inf t => negb t
  | Fin p, Fin q => Qle_bool p q
  end.

Definition num_lt (a b : num) : bool := num_gt b a.

(** [a === b] on numbers. *)
Definition num_eq (a b : num) : bool :=
  match a, b with
  | Inf s, Inf t => Bool.eqb s t
  | Fin p, Fin q => Qeq_bool p q
  | _, _ => false
  end.

Definition num_is_zero (a : num) : bool :=
  match a with Fin q => Qeq_bool q 0 | _ => false end.

Definition is_NaN (a : num) : bool :=
  match a with NaN => true | _ => false end.

(** A positive integer, the shape the data model announces for [seats]. *)
Definition num_is_pos_int (a : num) : bool :=
  match a with
  | Fin q => Qle_bool 1 q && Pos.eqb (Qden (Qred q)) 1
  | _ => false
  end.

(** ** JSON values

    The values a handler manipulates: what [express.json()] produces,
    and [undefined], which is not a JSON value and arises from reading
    an absent property. *)

#[local] Set Warnings "-register-all".

Inductive value : Type :=
  | JUndefined
  | JNull
  | JBool (b : bool)
  | JNum (n : num)
  | JStr (s : string)
  | JArr (items : list value)
  | JObj (props : list (string * value)).

(** *** [StringToNumber], the coercion [Number] applies to a string

    Strings are byte strings holding UTF-8.  The grammar is that of
    ECMAScript's StringNumericLiteral: optional white space around either
    nothing (the value is 0), a signed decimal literal with optional
    fraction and exponent, [Infinity] with a sign, or an unsigned
    hexadecimal, octal or binary integer.  Anything else is [NaN]. *)

Definition code (c : ascii) : Z := Z.of_N (N_of_ascii c).

Definition digit_of (base : Z) (c : ascii) : option Z :=
  let n := code c in
  let d := if (48 <=? n)%Z && (n <=? 57)%Z then (n - 48)%Z
           else if (97 <=? n)%Z && (n <=? 102)%Z then (n - 87)%Z
           else if (65 <=? n)%Z && (n <=? 70)%Z then (n - 55)%Z
           else base in
  if (d <? base)%Z then Some d else None.

(** Longest run of digits at the head of [s]: accumulated value, number
    of digits read, remaining characters. *)
Fixpoint read_digits (base : Z) (s : list ascii) (acc : Z) (n : nat)
  : Z * nat * list ascii :=
  match s with
  | c :: s' =>
      match digit_of base c with
      | Some d => read_digits base s' (acc * base + d)%Z (S n)
      | None => (acc, n, s)
      end
  | [] => (acc, n, s)
  end.

Definition utf8 (l : list Z) : list ascii :=
  map (fun z => ascii_of_N (Z.to_N z)) l.

(** TAB, LF, VT, FF, CR, SP, U+00A0, U+1680, U+2000 to U+200A, U+2028,
    U+2029, U+202F, U+205F, U+3000, U+FEFF. *)
Definition StrWhiteSpaceChar : list (list ascii) :=
  map utf8
    [ [9]; [10]; [11]; [12]; [13]; [32]; [194; 160]; [225; 154; 128];
      [226; 128; 128]; [226; 128; 129]; [226; 128; 130]; [226; 128; 131];
      [226; 128; 132]; [226; 128; 133]; [226; 128; 134]; [226; 128; 135];
      [226; 128; 136]; [226; 128; 137]; [226; 128; 138]; [226; 128; 168];
      [226; 128; 169]; [226; 128; 175]; [226; 129; 159]; [227; 128; 128];
      [239; 187; 191] ]%Z.

Fixpoint strip_prefix (tok s : list ascii) : option (list ascii) :=
  match tok, s with
  | [], _ => Some s
  | t :: tok', c :: s' => if Ascii.eqb t c then strip_prefix tok' s' else None
  | _ :: _, [] => None
  end.

Definition strip_one (toks : list (list ascii)) (s : list ascii)
  : option (list ascii) :=
  fold_right
    (fun tok r => match strip_prefix tok s with Some s' => Some s' | None => r end)
    None toks.

Fixpoint skip_ws (toks : list (list ascii)) (fuel : nat) (s : list ascii)
  : list ascii :=
  match fuel with
  | O => s
  | S fuel' =>
      match strip_one toks s with
      | Some s' => skip_ws toks fuel' s'
      | None => s
      end
  end.

Definition trim (s : list ascii) : list ascii :=
  let s1 := skip_ws StrWhiteSpaceChar (length s) s in
  rev (skip_ws (map (@rev ascii) StrWhiteSpaceChar) (length s1) (rev s1)).

Definition read_sign (s : list ascii) : bool * list ascii :=
  match s with
  | "-"%char :: s' => (true, s')
  | "+"%char :: s' => (false, s')
  | _ => (false, s)
  end.

Definition is_nil {A} (l : list A) : bool :=
  match l with [] => true | _ => false end.

(** The double nearest to [mant * 10^exp], with its sign. *)
Definition decimal_value (neg : bool) (mant : Z) (exp : Z) : num :=
  round64 (inject_Z (if neg then - mant else mant) * Qpower (inject_Z 10) exp).

Definition StrDecimalLiteral (s : list ascii) : num :=
  let '(neg, s0) := read_sign s in
  if is_nil s0 then NaN
  else match strip_prefix (list_ascii_of_string "Infinity") s0 with
  | Some rest => if is_nil rest then Inf neg else NaN
  | None =>
  let '(ip, ni, s1) := read_digits 10 s0 0 0 in
  let '(mant, nf, s2) :=
    match s1 with
    | "."%char :: s1' => read_digits 10 s1' ip 0
    | _ => (ip, O, s1)
    end in
  if (ni + nf =? 0)%nat then NaN
  else match s2 with
  | [] => decimal_value neg mant (- Z.of_nat nf)
  | c :: s3 =>
      if Ascii.eqb c "e" || Ascii.eqb c "E" then
        let '(eneg, s4) := read_sign s3 in
        let '(ev, ne, s5) := read_digits 10 s4 0 0 in
        if (ne =? 0)%nat || negb (is_nil s5) then NaN
        else decimal_value neg mant ((if eneg then - ev else ev) - Z.of_nat nf)
      else NaN
  end
  end.

Definition NonDecimalIntegerLiteral (base : Z) (digits : list ascii) : num :=
  let '(v, n, rest) := read_digits base digits 0 0 in
  if (n =? 0)%nat || negb (is_nil rest) then NaN else round64 (inject_Z v).

Definition StrNumericLiteral (s : list ascii) : num :=
  match s with
  | "0"%char :: c :: ds =>
      if Ascii.eqb c "x" || Ascii.eqb c "X" then NonDecimalIntegerLiteral 16 ds
      else if Ascii.eqb c "o" || Ascii.eqb c "O" then NonDecimalIntegerLiteral 8 ds
      else if Ascii.eqb c "b" || Ascii.eqb c "B" then NonDecimalIntegerLiteral 2 ds
      else StrDecimalLiteral s
  | _ => StrDecimalLiteral s
  end.

Definition StringToNumber (s : string) : num :=
  let t := trim (list_ascii_of_string s) in
  if is_nil t then num_of_Z 0 else StrNumericLiteral t.


(** *** [Number(v)]

    [None] stands for the [TypeError] thrown when the conversion to a
    primitive fails: a plain object whose own [toString] property shadows
    [Object.prototype.toString] has no callable method left that returns
    a primitive.  An array is converted through [join]: every element is
    converted to a string (which fails on such an object), an empty array
    gives the empty string, a one-element array the string of its
    element, and a longer one a string with a comma in it. *)

Definition has_own (k : string) (props : list (string * value)) : bool :=
  existsb (fun p => String.eqb (fst p) k) props.

Fixpoint ToString_ok (v : value) : bool :=
  match v with
  | JObj props => negb (has_own "toString" props)
  | JArr items => forallb ToString_ok items
  | _ => true
  end.

Fixpoint Number (v : value) : option num :=
  match v with
  | JUndefined => Some NaN
  | JNull => Some (num_of_Z 0)
  | JBool b => Some (num_of_Z (if b then 1 else 0))
  | JNum n => Some n
  | JStr s => Some (StringToNumber s)
  | JObj props => if has_own "toString" props then None else Some NaN
  | JArr items =>
      if forallb ToString_ok items then
        match items with
        | [] => Some (num_of_Z 0)
        | [x] =>
            match x with
            | JUndefined | JNull => Some (num_of_Z 0)
            | JBool _ | JObj _ => Some NaN
            | JNum n => Some n
            | JStr s => Some (StringToNumber s)
            | JArr _ => Number x
            end
        | _ :: _ :: _ => Some NaN
        end
      else None
  end.

(** [!!v]: the falsy values are [undefined], [null], [false], [0], [NaN]
    and the empty string. *)
Definition truthy (v : value) : bool :=
  match v with
  | JUndefined | JNull => false
  | JBool b => b
  | JNum n => negb (is_NaN n || num_is_zero n)
  | JStr s => negb (String.eqb s "")
  | JArr _ | JObj _ => true
  end.

Definition is_undefined (v : value) : bool :=
  match v with JUndefined => true | _ => false end.

(** [v || ''] *)
Definition or_empty (v : value) : value :=
  if truthy v then v else JStr "".

(** Property read [o.k] on a request body. *)
Definition prop (o : gmap string value) (k : string) : value :=
  default JUndefined (o !! k).

(** ** Records and the in-memory storage *)

Module Event.
Record t : Type := mk {
  id : Z;
  title : value;
  description : value;
  date : value;
  capacity : num;
  location : value
}.

(** [e[k] = k === 'capacity' ? Number(v) : v] for the keys the update
    handler lets through; [None] when [Number] throws. *)
Definition assign (k : string) (v : value) (e : t) : option t :=
  if String.eqb k "capacity" then
    n ← Number v;
    Some (mk (id e) (title e) (description e) (date e) n (location e))
  else if String.eqb k "title" then
    Some (mk (id e) v (description e) (date e) (capacity e) (location e))
  else if String.eqb k "description" then
    Some (mk (id e) (title e) v (date e) (capacity e) (location e))
  else if String.eqb k "date" then
    Some (mk (id e) (title e) (description e) v (capacity e) (location e))
  else if String.eqb k "location" then
    Some (mk (id e) (title e) (description e) (date e) (capacity e) v)
  else Some e.
End Event.

Module Booking.
Record t : Type := mk {
  id : Z;
  eventId : num;
  name : value;
  email : value;
  phone : value;
  seats : num;
  createdAt : string
}.

Definition set_seats (n : num) (b : t) : t :=
  mk (id b) (eventId b) (name b) (email b) (phone b) n (createdAt b).

(** [b[k] = v] for [k] among [name], [email], [phone]. *)
Definition assign (k : string) (v : value) (b : t) : t :=
  if String.eqb k "name" then
    mk (id b) (eventId b) v (email b) (phone b) (seats b) (createdAt b)
  else if String.eqb k "email" then
    mk (id b) (eventId b) (name b) v (phone b) (seats b) (createdAt b)
  else if String.eqb k "phone" then
    mk (id b) (eventId b) (name b) (email b) v (seats b) (createdAt b)
  else b.
End Booking.

Record state : Type := mkState {
  events : list Event.t;
  bookings : list Booking.t
}.

(** The storage when the process starts: one sample event and one sample
    booking; [boot] is the time stamp taken for the booking. *)
Definition sample_event : Event.t :=
  Event.mk 1 (JStr "Synergia Tech Talk")
    (JStr "A tech talk on fullstack development")
    (JStr "2025-12-10") (num_of_Z 100) (JStr "Main Auditorium").

Definition sample_booking (boot : string) : Booking.t :=
  Booking.mk 1 (num_of_Z 1) (JStr "Alice Kumar")
    (JStr "alice@example.com") (JStr "9876543210") (num_of_Z 1) boot.

Definition init (boot : string) : state :=
  {| events := [sample_event]; bookings := [sample_booking boot] |}.

(** [nextId]: [Math.max] over the ids plus one, or 1 for an empty array. *)
Definition nextId (ids : list Z) : Z :=
  match ids with
  | [] => 1
  | i :: rest => fold_left Z.max rest i + 1
  end.

(** ** Array helpers *)

(** [arr.findIndex(p)], with [None] for the result -1. *)
Fixpoint findIndex {A} (p : A -> bool) (arr : list A) : option nat :=
  match arr with
  | [] => None
  | x :: rest => if p x then Some O else S <$> findIndex p rest
  end.

(** [arr.find(p)] for a callback that may throw: the outer [None] is the
    exception, raised by the first call that throws. *)
Fixpoint find_throwing {A} (p : A -> option bool) (arr : list A)
  : option (option A) :=
  match arr with
  | [] => Some None
  | x :: rest =>
      b ← p x;
      if b : bool then Some (Some x) else find_throwing p rest
  end.

(** [arr.filter(p)] for a callback that may throw. *)
Fixpoint filter_throwing {A} (p : A -> option bool) (arr : list A)
  : option (list A) :=
  match arr with
  | [] => Some []
  | x :: rest =>
      b ← p x;
      rest' ← filter_throwing p rest;
      Some (if b : bool then x :: rest' else rest')
  end.

(** [arr.reduce((s, b) => s + Number(b.seats), 0)]; the stored [seats] is
    a number, on which [Number] is the identity. *)
Definition sum_seats (arr : list Booking.t) : num :=
  fold_left (fun s b => num_add s (Booking.seats b)) arr (num_of_Z 0).

(** ** Responses *)

Inductive payload : Type :=
  | ErrorBody (error : string)
  | EventBody (e : Event.t)
  | EventList (l : list Event.t)
  | EventCancelled (message : string) (event : option Event.t)
  | BookingBody (b : Booking.t)
  | BookingList (l : list Booking.t)
  | BookingCancelled (message : string) (booking : option Booking.t)
  | NoBody.

Record response : Type := mkResponse {
  status : nat;
  body : payload
}.

(** How a handler ends: it has sent a response, or an exception left it. *)
Inductive outcome : Type :=
  | Sent (r : response)
  | Uncaught.

(** ** Handler monad

    A handler reads and writes the two arrays and may stop early, either
    by [return res.status(..).json(..)] or by an exception. *)

Inductive step (A : Type) : Type :=
  | Next (a : A)
  | Stop (o : outcome).
Arguments Next {A} a.
Arguments Stop {A} o.

Definition M (A : Type) : Type := state -> state * step A.

Definition ret {A} (a : A) : M A := fun s => (s, Next a).

Definition bind {A B} (m : M A) (k : A -> M B) : M B :=
  fun s =>
    match m s with
    | (s', Next a) => k a s'
    | (s', Stop o) => (s', Stop o)
    end.

Notation "x <- m ;; k" := (bind m (fun x => k))
  (at level 20, m at level 99, k at level 200,
   format "x  <-  m  ;;  '/' k").

Definition get_events : M (list Event.t) := fun s => (s, Next (events s)).
Definition get_bookings : M (list Booking.t) := fun s => (s, Next (bookings s)).
Definition set_events (l : list Event.t) : M unit :=
  fun s => (mkState l (bookings s), Next tt).
Definition set_bookings (l : list Booking.t) : M unit :=
  fun s => (mkState (events s) l, Next tt).

(** [res.status(code).json(p)], the last thing a handler does. *)
Definition reply {A} (code : nat) (p : payload) : M A :=
  fun s => (s, Stop (Sent (mkResponse code p))).

Definition throw {A} : M A := fun s => (s, Stop Uncaught).

(** Run a computation that may throw. *)
Definition try {A} (o : option A) : M A :=
  match o with Some a => ret a | None => throw end.

(** [keys.forEach(f)] *)
Fixpoint forEach {A} (f : A -> M unit) (keys : list A) : M unit :=
  match keys with
  | [] => ret tt
  | k :: rest => _ <- f k ;; forEach f rest
  end.

Arguments forEach : simpl never.

Definition handler : Type := M Empty_set.

Definition run (h : handler) (s : state) : state * outcome :=
  match h s with
  | (s', Stop o) => (s', o)
  | (_, Next a) => match a with end
  end.

Definition json_event (o : option Event.t) : payload :=
  match o with Some e => EventBody e | None => NoBody end.

Definition json_booking (o : option Booking.t) : payload :=
  match o with Some b => BookingBody b | None => NoBody end.

(** ** Events endpoints *)

(** [GET /events] *)
Definition get_events_handler : handler :=
  evs <- get_events ;;
  reply 200 (EventList evs).

(** [POST /events/add] *)
Definition post_events_add (body : gmap string value) : handler :=
  let title := prop body "title" in
  let description := prop body "description" in
  let date := prop body "date" in
  let capacity := prop body "capacity" in
  let location := prop body "location" in
  if negb (truthy title) || negb (truthy date) || negb (truthy capacity) then
    reply 400 (ErrorBody "title, date and capacity are required")
  else
    evs <- get_events ;;
    let id := nextId (map Event.id evs) in
    cap <- try (Number capacity) ;;
    let event :=
      Event.mk id title (or_empty description) date cap (or_empty location) in
    _ <- set_events (evs ++ [event]) ;;
    reply 201 (EventBody event).

(** [e.id === id] *)
Definition event_has_id (id : num) (e : Event.t) : bool :=
  num_eq (num_of_Z (Event.id e)) id.

(** [GET /event/:id] *)
Definition get_event (id_param : string) : handler :=
  let id := StringToNumber id_param in
  evs <- get_events ;;
  match List.find (event_has_id id) evs with
  | None => reply 404 (ErrorBody "Event not found")
  | Some ev => reply 200 (EventBody ev)
  end.

Definition allowed : list string :=
  ["title"; "description"; "date"; "capacity"; "location"]%string.

(** [PUT /event/:id] *)
Definition put_event (id_param : string) (update : gmap string value) : handler :=
  let id := StringToNumber id_param in
  evs <- get_events ;;
  match findIndex (event_has_id id) evs with
  | None => reply 404 (ErrorBody "Event not found")
  | Some evIndex =>
      _ <- forEach
             (fun k =>
                if negb (is_undefined (prop update k)) then
                  evs <- get_events ;;
                  e <- try (evs !! evIndex) ;;
                  e' <- try (Event.assign k (prop update k) e) ;;
                  set_events (<[evIndex := e']> evs)
                else ret tt)
             allowed ;;
      evs <- get_events ;;
      reply 200 (json_event (evs !! evIndex))
  end.

(** [b.eventId !== id] *)
Definition booking_not_for (id : num) (b : Booking.t) : bool :=
  negb (num_eq (Booking.eventId b) id).

(** [DELETE /event/:id] *)
Definition delete_event (id_param : string) : handler :=
  let id := StringToNumber id_param in
  evs <- get_events ;;
  match findIndex (event_has_id id) evs with
  | None => reply 404 (ErrorBody "Event not found")
  | Some evIndex =>
      let deletedEvent := evs !! evIndex in
      _ <- set_events (delete evIndex evs) ;;
      bks <- get_bookings ;;
      _ <- set_bookings (List.filter (booking_not_for id) bks) ;;
      reply 200 (EventCancelled "Event cancelled" deletedEvent)
  end.

(** ** Bookings endpoints *)

(** [GET /api/bookings] *)
Definition get_bookings_handler : handler :=
  bks <- get_bookings ;;
  reply 200 (BookingList bks).

(** [e.id === Number(eventId)] *)
Definition event_matches (eventId : value) (e : Event.t) : option bool :=
  n ← Number eventId;
  Some (num_eq (num_of_Z (Event.id e)) n).

(** [b.eventId === Number(eventId)] *)
Definition booking_matches (eventId : value) (b : Booking.t) : option bool :=
  n ← Number eventId;
  Some (num_eq (Booking.eventId b) n).

(** [POST /api/bookings]; [now] is [new Date().toISOString()]. *)
Definition post_bookings (body : gmap string value) (now : string) : handler :=
  let eventId := prop body "eventId" in
  let name := prop body "name" in
  let email := prop body "email" in
  let phone := prop body "phone" in
  let seats := prop body "seats" in
  if negb (truthy eventId) || negb (truthy name) || negb (truthy email)
     || negb (truthy seats) then
    reply 400 (ErrorBody "eventId, name, email and seats are required")
  else
    evs <- get_events ;;
    found <- try (find_throwing (event_matches eventId) evs) ;;
    match found with
    | None => reply 404 (ErrorBody "Event not found")
    | Some ev =>
        seatsRequested <- try (Number seats) ;;
        bks <- get_bookings ;;
        forEvent <- try (filter_throwing (booking_matches eventId) bks) ;;
        let seatsBooked := sum_seats forEvent in
        if num_gt (num_add seatsBooked seatsRequested) (Event.capacity ev) then
          reply 400 (ErrorBody "Not enough seats available")
        else
          id <- try (Number eventId) ;;
          let booking :=
            Booking.mk (nextId (map Booking.id bks)) id name email
              (or_empty phone) seatsRequested now in
          _ <- set_bookings (bks ++ [booking]) ;;
          reply 201 (BookingBody booking)
    end.

(** [x.id === id] *)
Definition booking_has_id (id : num) (b : Booking.t) : bool :=
  num_eq (num_of_Z (Booking.id b)) id.

(** [GET /api/bookings/:id] *)
Definition get_booking (id_param : string) : handler :=
  let id := StringToNumber id_param in
  bks <- get_bookings ;;
  match List.find (booking_has_id id) bks with
  | None => reply 404 (ErrorBody "Booking not found")
  | Some b => reply 200 (BookingBody b)
  end.

(** [e.id === bookings[idx].eventId]; reading a property of
    [bookings[idx]] throws when there is no such element. *)
Definition event_of_booking_at (bks : list Booking.t) (idx : nat) (e : Event.t)
  : option bool :=
  cur ← bks !! idx;
  Some (num_eq (num_of_Z (Event.id e)) (Booking.eventId cur)).

(** [b.eventId === bookings[idx].eventId && b.id !== id] *)
Definition other_booking_at (bks : list Booking.t) (idx : nat) (id : num)
    (b : Booking.t) : option bool :=
  cur ← bks !! idx;
  Some (num_eq (Booking.eventId b) (Booking.eventId cur)
        && negb (num_eq (num_of_Z (Booking.id b)) id)).

(** [PUT /api/bookings/:id] *)
Definition put_booking (id_param : string) (update : gmap string value) : handler :=
  let id := StringToNumber id_param in
  bks <- get_bookings ;;
  match findIndex (booking_has_id id) bks with
  | None => reply 404 (ErrorBody "Booking not found")
  | Some idx =>
      _ <- (if negb (is_undefined (prop update "seats")) then
              evs <- get_events ;;
              found <- try (find_throwing (event_of_booking_at bks idx) evs) ;;
              match found with
              | None => reply 500 (ErrorBody "Associated event missing")
              | Some ev =>
                  cur <- try (bks !! idx) ;;
                  let currentSeats := Booking.seats cur in
                  newSeats <- try (Number (prop update "seats")) ;;
                  others <- try (filter_throwing (other_booking_at bks idx id) bks) ;;
                  let seatsOther := sum_seats others in
                  if num_gt (num_add seatsOther newSeats) (Event.capacity ev) then
                    reply 400 (ErrorBody "Not enough seats available for this update")
                  else
                    set_bookings (<[idx := Booking.set_seats newSeats cur]> bks)
              end
            else ret tt) ;;
      _ <- forEach
             (fun k =>
                if negb (is_undefined (prop update k)) then
                  bks <- get_bookings ;;
                  b <- try (bks !! idx) ;;
                  set_bookings (<[idx := Booking.assign k (prop update k) b]> bks)
                else ret tt)
             ["name"; "email"; "phone"]%string ;;
      bks <- get_bookings ;;
      reply 200 (json_booking (bks !! idx))
  end.

(** [DELETE /api/bookings/:id] *)
Definition delete_booking (id_param : string) : handler :=
  let id := StringToNumber id_param in
  bks <- get_bookings ;;
  match findIndex (booking_has_id id) bks with
  | None => reply 404 (ErrorBody "Booking not found")
  | Some idx =>
      let deleted := bks !! idx in
      _ <- set_bookings (delete idx bks) ;;
      reply 200 (BookingCancelled "Booking cancelled" deleted)
  end.

(** ** The router, and sequential execution *)

Inductive request : Type :=
  | GET_events
  | POST_events_add (body : gmap string value)
  | GET_event (id : string)
  | PUT_event (id : string) (body : gmap string value)
  | DELETE_event (id : string)
  | GET_bookings
  | POST_bookings (body : gmap string value) (now : string)
  | GET_booking (id : string)
  | PUT_booking (id : string) (body : gmap string value)
  | DELETE_booking (id : string).

Definition route (r : request) : handler :=
  match r with
  | GET_events => get_events_handler
  | POST_events_add body => post_events_add body
  | GET_event id => get_event id
  | PUT_event id body => put_event id body
  | DELETE_event id => delete_event id
  | GET_bookings => get_bookings_handler
  | POST_bookings body now => post_bookings body now
  | GET_booking id => get_booking id
  | PUT_booking id body => put_booking id body
  | DELETE_booking id => delete_booking id
  end.

Definition handle (r : request) (s : state) : state * outcome :=
  run (route r) s.

(** Requests served one after the other. *)
Definition serve (rs : list request) (s : state) : state :=
  fold_left (fun s r => fst (handle r s)) rs s.

(** The states the running server can be in: the storage at start-up and
    whatever a sequence of requests makes of it. *)
Inductive reachable (boot : string) : state -> Prop :=
  | reachable_init : reachable boot (init boot)
  | reachable_step s r :
      reachable boot s -> reachable boot (fst (handle r s)).

(** ** Vocabulary of the specification *)

(** The error taxonomy, as the handlers word it. *)
Definition ValidationError_booking : outcome :=
  Sent (mkResponse 400 (ErrorBody "eventId, name, email and seats are required")).
Definition NotFound_event : outcome :=
  Sent (mkResponse 404 (ErrorBody "Event not found")).
Definition NotFound_booking : outcome :=
  Sent (mkResponse 404 (ErrorBody "Booking not found")).
Definition CapacityExceeded_create : outcome :=
  Sent (mkResponse 400 (ErrorBody "Not enough seats available")).
Definition CapacityExceeded_update : outcome :=
  Sent (mkResponse 400 (ErrorBody "Not enough seats available for this update")).
Definition InternalError_update : outcome :=
  Sent (mkResponse 500 (ErrorBody "Associated event missing")).

(** The sum of two numbers as the specification means it: the sum of
    the two values, with no rounding. *)
Definition num_plus (a b : num) : num :=
  match a, b with
  | NaN, _ | _, NaN => NaN
  | Inf s, Inf t => if Bool.eqb s t then Inf s else NaN
  | Inf s, Fin _ | Fin _, Inf s => Inf s
  | Fin p, Fin q => Fin (Qred (p + q))
  end.

(** The sum of the seats of some bookings, likewise. *)
Fixpoint total_seats (bks : list Booking.t) : num :=
  match bks with
  | [] => num_of_Z 0
  | b :: rest => num_plus (Booking.seats b) (total_seats rest)
  end.

(** Bookings whose [eventId] equals [id], and the sum of their seats. *)
Definition bookings_for (id : num) (bks : list Booking.t) : list Booking.t :=
  List.filter (fun b => num_eq (Booking.eventId b) id) bks.

Definition seats_booked (s : state) (id : num) : num :=
  total_seats (bookings_for id (bookings s)).

(** The same seats added up the way a double sum is: one booking after
    the other in the order of the array, every addition rounded. *)
Fixpoint running_total (acc : num) (seats : list num) : num :=
  match seats with
  | [] => acc
  | x :: rest => running_total (num_add acc x) rest
  end.

Definition seats_added (bks : list Booking.t) : num :=
  running_total (num_of_Z 0) (map Booking.seats bks).

(** A whole number of seats: an integer that is not negative.  [2^53] is
    where the doubles stop holding every integer. *)
Definition whole (n : num) : bool :=
  match n with
  | Fin q => Pos.eqb (Qden q) 1 && (0 <=? Qnum q)%Z
  | _ => false
  end.

Definition two53 : num := num_of_Z (2 ^ 53).

(** The integer a whole number is, and the seats of some bookings
    counted in integers. *)
Definition count (n : num) : Z :=
  match n with Fin q => Qnum q | _ => 0%Z end.

Fixpoint count_seats (bks : list Booking.t) : Z :=
  match bks with
  | [] => 0%Z
  | b :: rest => (count (Booking.seats b) + count_seats rest)%Z
  end.

Definition whole_seats (bks : list Booking.t) : Prop :=
  forall b, In b bks -> whole (Booking.seats b) = true.

(** The capacity bound for one event and for the whole table. *)
Definition within_capacity (s : state) (e : Event.t) : bool :=
  num_le (seats_booked s (num_of_Z (Event.id e))) (Event.capacity e).


(** The bookings of the same event as [cur] other than [cur] itself,
    told apart by id. *)
Definition other_bookings (cur : Booking.t) (bks : list Booking.t)
  : list Booking.t :=
  List.filter
    (fun b => num_eq (Booking.eventId b) (Booking.eventId cur)
              && negb (Z.eqb (Booking.id b) (Booking.id cur)))
    bks.

(** A seats input that is present but does not denote a number. *)
Definition non_numeric (v : value) : Prop :=
  truthy v = true /\ Number v = Some NaN.

(** The three properties the update handler copies. *)
Definition contact (k : string) (b : Booking.t) : value :=
  if String.eqb k "name" then Booking.name b
  else if String.eqb k "email" then Booking.email b
  else Booking.phone b.

(** The seats step of a booking update lets the request through: no
    [seats] in the input, or a value that is coerced and fits. *)
Definition seats_step_passes (s : state) (cur : Booking.t)
    (update : gmap string value) : Prop :=
  is_undefined (prop update "seats") = true
  \/ exists ev n,
       List.find (event_has_id (Booking.eventId cur)) (events s) = Some ev
       /\ Number (prop update "seats") = Some n
       /\ num_gt (num_add (sum_seats (other_bookings cur (bookings s))) n)
                 (Event.capacity ev) = false.

(** ** The two loops in closed form *)

(** What the closing [forEach] of the booking update makes of the
    booking it runs on. *)
Definition apply_contact (update : gmap string value) (b : Booking.t)
  : Booking.t :=
  fold_left
    (fun b k =>
       if is_undefined (prop update k) then b
       else Booking.assign k (prop update k) b)
    ["name"; "email"; "phone"]%string b.

(** What the [forEach] of the event update makes of the event it runs
    on: the event after the assignments that were made, and whether all
    of them were ([false] when [Number] threw on the way). *)
Fixpoint assign_all (update : gmap string value) (keys : list string)
    (e : Event.t) : Event.t * bool :=
  match keys with
  | [] => (e, true)
  | k :: rest =>
      if is_undefined (prop update k) then assign_all update rest e
      else
        match Event.assign k (prop update k) e with
        | Some e' => assign_all update rest e'
        | None => (e, false)
        end
  end.

(** ** Invariants and runs *)

(** What holds of the storage whatever the requests were: ids are not
    repeated and are at least 1, and a booking refers to a stored
    event. *)
Definition event_ids (s : state) : list Z := map Event.id (events s).
Definition booking_ids (s : state) : list Z := map Booking.id (bookings s).

Definition well_formed (s : state) : Prop :=
  List.NoDup (event_ids s)
  /\ List.NoDup (booking_ids s)
  /\ (forall b, In b (bookings s) ->
       exists i, In i (event_ids s)
                 /\ num_eq (num_of_Z i) (Booking.eventId b) = true)
  /\ (forall i, In i (event_ids s) -> (1 <= i)%Z)
  /\ (forall i, In i (booking_ids s) -> (1 <= i)%Z).

(** What one request can do to the storage: nothing, or one of the seven
    changes below, each with the facts that let it happen. *)
Inductive effect (s : state) : request -> state -> Prop :=
  | effect_none r : effect s r s
  | effect_event_added body cap :
      truthy (prop body "capacity") = true ->
      Number (prop body "capacity") = Some cap ->
      effect s (POST_events_add body)
        (mkState
           (events s
            ++ [Event.mk (nextId (event_ids s)) (prop body "title")
                  (or_empty (prop body "description")) (prop body "date") cap
                  (or_empty (prop body "location"))])
           (bookings s))
  | effect_event_updated id update evIndex e :
      findIndex (event_has_id (StringToNumber id)) (events s) = Some evIndex ->
      events s !! evIndex = Some e ->
      effect s (PUT_event id update)
        (mkState (<[evIndex := fst (assign_all update allowed e)]> (events s))
           (bookings s))
  | effect_event_deleted id evIndex e :
      findIndex (event_has_id (StringToNumber id)) (events s) = Some evIndex ->
      events s !! evIndex = Some e ->
      effect s (DELETE_event id)
        (mkState (delete evIndex (events s))
           (List.filter (booking_not_for (StringToNumber id)) (bookings s)))
  | effect_booking_added body now eid ev n :
      Number (prop body "eventId") = Some eid ->
      List.find (event_has_id eid) (events s) = Some ev ->
      truthy (prop body "seats") = true ->
      Number (prop body "seats") = Some n ->
      num_gt (num_add (sum_seats (bookings_for eid (bookings s))) n)
        (Event.capacity ev) = false ->
      effect s (POST_bookings body now)
        (mkState (events s)
           (bookings s
            ++ [Booking.mk (nextId (booking_ids s)) eid (prop body "name")
                  (prop body "email") (or_empty (prop body "phone")) n now]))
  | effect_booking_contact id update idx cur :
      findIndex (booking_has_id (StringToNumber id)) (bookings s) = Some idx ->
      bookings s !! idx = Some cur ->
      is_undefined (prop update "seats") = true ->
      effect s (PUT_booking id update)
        (mkState (events s)
           (<[idx := apply_contact update cur]> (bookings s)))
  | effect_booking_seated id update idx cur ev n :
      findIndex (booking_has_id (StringToNumber id)) (bookings s) = Some idx ->
      bookings s !! idx = Some cur ->
      is_undefined (prop update "seats") = false ->
      List.find (event_has_id (Booking.eventId cur)) (events s) = Some ev ->
      Number (prop update "seats") = Some n ->
      num_gt (num_add (sum_seats (other_bookings cur (bookings s))) n)
        (Event.capacity ev) = false ->
      effect s (PUT_booking id update)
        (mkState (events s)
           (<[idx := apply_contact update (Booking.set_seats n cur)]>
              (bookings s)))
  | effect_booking_deleted id idx :
      findIndex (booking_has_id (StringToNumber id)) (bookings s) = Some idx ->
      effect s (DELETE_booking id)
        (mkState (events s) (delete idx (bookings s))).

(** The seats value a request asks to store, when it has one. *)
Definition seats_input (r : request) : option value :=
  match r with
  | POST_bookings body _ => Some (prop body "seats")
  | PUT_booking _ update =>
      if is_undefined (prop update "seats") then None
      else Some (prop update "seats")
  | _ => None
  end.

(** Requests whose seats input, if any, coerces to a positive integer. *)
Definition seats_input_pos_int (r : request) : Prop :=
  forall v n, seats_input r = Some v -> Number v = Some n ->
              num_is_pos_int n = true.

Definition num_nonneg (n : num) : bool := num_le (num_of_Z 0) n.





(** ** Further vocabulary *)

(** Ids in strictly increasing order. *)
Fixpoint ascending (ids : list Z) : Prop :=
  match ids with
  | [] => True
  | i :: rest => Forall (Z.lt i) rest /\ ascending rest
  end.

(** The four answers of [POST /events/add] and the by-id handlers that
    are not named above. *)
Definition ValidationError_event : outcome :=
  Sent (mkResponse 400 (ErrorBody "title, date and capacity are required")).

(** The value a property has after an update: the one supplied, or the
    old one when the update does not carry the property. *)
Definition updated (update : gmap string value) (k : string) (old : value)
  : value :=
  if is_undefined (prop update k) then old else prop update k.

(** * Properties *)

(** Case analysis on which of the optional properties an update carries. *)
Ltac contact_cases update :=
  destruct (is_undefined (prop update "name")),
    (is_undefined (prop update "email")), (is_undefined (prop update "phone")).

Ltac allowed_cases update :=
  destruct (is_undefined (prop update "title")),
    (is_undefined (prop update "description")),
    (is_undefined (prop update "date")),
    (is_undefined (prop update "location")).

(** ** Numbers *)

Lemma num_add_NaN_r a : num_add a NaN = NaN.
Proof. by destruct a. Qed.

Lemma num_gt_NaN_l b : num_gt NaN b = false.
Proof. done. Qed.

Lemma num_add_comm a b : num_add a b = num_add b a.
Proof.
  destruct a as [|s|p], b as [|t|q]; simpl; try done.
  - destruct s, t; done.
  - f_equal. apply Qred_complete. ring.
Qed.

Lemma num_plus_comm a b : num_plus a b = num_plus b a.
Proof.
  destruct a as [|s|p], b as [|t|q]; simpl; try done.
  - destruct s, t; done.
  - f_equal. apply Qred_complete. ring.
Qed.

Lemma num_plus_assoc a b c :
  num_plus (num_plus a b) c = num_plus a (num_plus b c).
Proof.
  destruct a as [|s|p], b as [|t|q], c as [|u|r]; simpl; try done;
    try (by destruct s, t; simpl);
    try (by destruct t, u; simpl);
    try (by destruct s, t, u; simpl).
  f_equal. apply Qred_complete. rewrite !Qred_correct. ring.
Qed.

Lemma Qeq_bool_inject_Z a b : Qeq_bool (inject_Z a) (inject_Z b) = Z.eqb a b.
Proof.
  destruct (Z.eqb_spec a b) as [->|Hne].
  - apply Qeq_bool_iff. reflexivity.
  - destruct (Qeq_bool (inject_Z a) (inject_Z b)) eqn:E; [|done].
    apply Qeq_bool_iff in E. unfold Qeq in E; simpl in E. lia.
Qed.

Lemma num_eq_of_Z a b : num_eq (num_of_Z a) (num_of_Z b) = Z.eqb a b.
Proof. apply Qeq_bool_inject_Z. Qed.

Lemma num_eq_sym a b : num_eq a b = num_eq b a.
Proof.
  destruct a as [|s|p], b as [|t|q]; simpl; try done.
  - by destruct s, t.
  - destruct (Qeq_bool p q) eqn:E1, (Qeq_bool q p) eqn:E2; try done.
    + apply Qeq_bool_iff in E1. symmetry in E1. apply Qeq_bool_iff in E1. congruence.
    + apply Qeq_bool_iff in E2. symmetry in E2. apply Qeq_bool_iff in E2. congruence.
Qed.

(** Equal numbers compare alike against a third one. *)
Lemma num_eq_compat a b c : num_eq a b = true -> num_eq c a = num_eq c b.
Proof.
  destruct a as [|s|p], b as [|t|q]; simpl; try done.
  - intros ->%Bool.eqb_prop. done.
  - intros E%Qeq_bool_iff. destruct c as [|u|r]; simpl; try done.
    destruct (Qeq_bool r p) eqn:E1, (Qeq_bool r q) eqn:E2; try done.
    + apply Qeq_bool_iff in E1. rewrite E in E1. apply Qeq_bool_iff in E1. congruence.
    + apply Qeq_bool_iff in E2. rewrite <- E in E2. apply Qeq_bool_iff in E2. congruence.
Qed.

Lemma num_eq_of_Z_inv a b x :
  num_eq (num_of_Z a) x = true -> num_eq (num_of_Z b) x = Z.eqb b a.
Proof.
  intros H. rewrite num_eq_sym in H.
  rewrite (num_eq_compat _ _ (num_of_Z b) H). apply num_eq_of_Z.
Qed.

Lemma num_gt_false_le a b :
  num_gt a b = false -> is_NaN a = false -> is_NaN b = false -> num_le a b = true.
Proof.
  destruct a as [|s|p], b as [|t|q]; simpl; try done.
  - destruct s, t; done.
  - by destruct s.
  - by destruct t.
  - by destruct (Qle_bool p q).
Qed.

Lemma num_le_not_NaN a b : num_le a b = true -> is_NaN a = false /\ is_NaN b = false.
Proof. destruct a, b; done. Qed.

Lemma num_le_gt a b : num_le a b = true -> num_gt a b = false.
Proof.
  destruct a as [|s|p], b as [|t|q]; simpl; try done.
  - destruct s, t; done.
  - by destruct s.
  - by destruct t.
  - by intros ->.
Qed.

Lemma num_gt_not_le a b : num_gt a b = true -> num_le a b = false.
Proof.
  intros H. destruct (num_le a b) eqn:E; [|done].
  apply num_le_gt in E. congruence.
Qed.


Lemma num_nonneg_add a b :
  num_nonneg a = true -> num_nonneg b = true -> num_nonneg (num_plus a b) = true.
Proof.
  unfold num_nonneg.
  destruct a as [|s|p], b as [|t|q]; simpl; try done.
  - by destruct s, t.
  - intros Hp%Qle_bool_iff Hq%Qle_bool_iff. apply Qle_bool_iff.
    rewrite Qred_correct. unfold inject_Z in *. lra.
Qed.


Lemma num_nonneg_not_NaN a : num_nonneg a = true -> is_NaN a = false.
Proof. by destruct a. Qed.

Lemma Qred_inject_Z z : Qred (inject_Z z) = inject_Z z.
Proof.
  unfold Qred, inject_Z.
  pose proof (Z.ggcd_gcd z 1) as Hg.
  pose proof (Z.ggcd_correct_divisors z 1) as Hd.
  destruct (Z.ggcd z 1) as [g [a b]]. simpl in *.
  rewrite Z.gcd_1_r in Hg. subst g. destruct Hd as [Ha Hb].
  assert (a = z) as -> by lia. assert (b = 1%Z) as -> by lia. done.
Qed.

Lemma Qred_plus_inject_Z a b :
  Qred (inject_Z a + inject_Z b) = inject_Z (a + b).
Proof.
  rewrite <- (Qred_inject_Z (a + b)). apply Qred_complete.
  by rewrite inject_Z_plus.
Qed.

Lemma num_plus_of_Z a b :
  num_plus (num_of_Z a) (num_of_Z b) = num_of_Z (a + b).
Proof. unfold num_of_Z. simpl. by rewrite Qred_plus_inject_Z. Qed.

Lemma pow2_neg j : (0 <= j)%Z -> inject_Z (2 ^ j) * pow2 (- j) == 1.
Proof.
  intros Hj. unfold pow2.
  destruct (Z.leb_spec 0 (- j)) as [H|H].
  - assert (j = 0%Z) as -> by lia. reflexivity.
  - rewrite Z.opp_involutive.
    assert (0 < 2 ^ j)%Z as Hpos by (apply Z.pow_pos_nonneg; lia).
    unfold Qeq, Qmult, inject_Z. cbn [Qnum Qden].
    rewrite Pos.mul_1_l, Z2Pos.id by done. lia.
Qed.

Lemma nearest_even_1 n : nearest_even n 1 = n.
Proof.
  unfold nearest_even. rewrite Z.mod_1_r, Z.div_1_r. done.
Qed.

Lemma nearest_even_ge n d : (0 < d)%Z -> (n / d <= nearest_even n d)%Z.
Proof.
  intros _. unfold nearest_even.
  destruct (2 * (n mod d) ?= d)%Z; [|lia|lia].
  destruct (Z.even (n / d)); lia.
Qed.

Lemma binade_Z z : (0 < z)%Z -> binade z 1 = Z.log2 z.
Proof.
  intros Hz. unfold binade. change (Z.log2 1) with 0%Z. rewrite Z.sub_0_r.
  pose proof (Z.log2_nonneg z) as H0.
  rewrite Z.max_r by done. rewrite Z.max_l by lia.
  pose proof (Z.log2_spec z Hz) as [Hlo _].
  destruct (Z.leb_spec (1 * 2 ^ Z.log2 z) (z * 2 ^ 0)); [done|lia].
Qed.

(** Doubles hold the integers below [2^53]. *)
Lemma round64_whole z :
  (0 <= z < 2 ^ 53)%Z -> round64 (inject_Z z) = num_of_Z z.
Proof.
  intros [H0 H53]. destruct (Z.eq_dec z 0%Z) as [->|Hne]; [done|].
  assert (0 < z)%Z as Hpos by lia.
  unfold round64. cbn [Qnum Qden inject_Z].
  destruct (Z.eqb_spec z 0) as [|_]; [done|].
  rewrite Z.abs_eq by done. rewrite (binade_Z z Hpos).
  assert (0 <= Z.log2 z < 53)%Z as [Hl0 Hl].
  { split; [apply Z.log2_nonneg|]. apply Z.log2_lt_pow2; lia. }
  rewrite (Z.max_l (Z.log2 z)) by lia.
  set (j := (52 - Z.log2 z)%Z).
  replace (Z.log2 z - 52)%Z with (- j)%Z by lia.
  rewrite Z.opp_involutive.
  rewrite (Z.max_r 0 j) by lia. rewrite (Z.max_l 0 (- j)) by lia.
  change (1 * 2 ^ 0)%Z with 1%Z. rewrite nearest_even_1.
  destruct (Z.ltb_spec 971 (- j)); [lia|].
  destruct (Z.eqb_spec (- j) 971); [lia|]. cbn [orb andb].
  unfold num_of_Z. f_equal.
  rewrite <- (Qred_inject_Z z). apply Qred_complete.
  rewrite inject_Z_mult, <- Qmult_assoc, pow2_neg by lia. ring.
Qed.

Lemma num_le_of_Z a b : num_le (num_of_Z a) (num_of_Z b) = (a <=? b)%Z.
Proof.
  unfold num_of_Z; simpl.
  destruct (Z.leb_spec a b) as [H|H].
  - apply Qle_bool_iff. by rewrite <- Zle_Qle.
  - destruct (Qle_bool (inject_Z a) (inject_Z b)) eqn:E; [|done].
    apply Qle_bool_iff in E. rewrite <- Zle_Qle in E. lia.
Qed.

(** From [2^53] on, rounding an integer does not go below [2^53]. *)
Lemma round64_big z :
  (2 ^ 53 <= z)%Z -> num_le two53 (round64 (inject_Z z)) = true.
Proof.
  intros H53. assert (0 < z)%Z as Hpos by lia.
  unfold round64. cbn [Qnum Qden inject_Z].
  destruct (Z.eqb_spec z 0) as [|_]; [lia|].
  rewrite Z.abs_eq by lia. rewrite (binade_Z z Hpos).
  assert (53 <= Z.log2 z)%Z as Hl.
  { apply Z.log2_le_pow2; lia. }
  rewrite (Z.max_l (Z.log2 z)) by lia.
  set (k := (Z.log2 z - 52)%Z).
  rewrite (Z.max_l 0 (- k)) by lia. rewrite (Z.max_r 0 k) by lia.
  rewrite Z.mul_1_r, Z.mul_1_l.
  destruct (Z.ltb_spec z 0) as [|_]; [lia|].
  destruct ((971 <? k)%Z || ((k =? 971)%Z && _)); [done|].
  assert (0 < 2 ^ k)%Z as Hk by (apply Z.pow_pos_nonneg; lia).
  pose proof (nearest_even_ge z (2 ^ k) Hk) as Hm.
  assert (2 ^ 52 <= z / 2 ^ k)%Z as Hq.
  { apply Z.div_le_lower_bound; [done|].
    rewrite Z.mul_comm, <- Z.pow_add_r by lia.
    replace (52 + k)%Z with (Z.log2 z) by lia.
    apply Z.log2_spec. lia. }
  unfold two53, num_of_Z. cbn [num_le].
  apply Qle_bool_iff. rewrite Qred_correct.
  unfold pow2. destruct (Z.leb_spec 0 k); [|lia].
  rewrite <- inject_Z_mult, <- Zle_Qle.
  assert (2 ^ 53 <= 2 ^ 52 * 2 ^ k)%Z.
  { rewrite <- Z.pow_add_r by lia. apply Z.pow_le_mono_r; lia. }
  nia.
Qed.

(** Where doubles and exact arithmetic part: the sum [1 + 2^53] is
    rounded to [2^53], [0.1 + 0.2] is a double above [0.3], a decimal
    literal is rounded to the nearest double, and one beyond the largest
    double is an infinity. *)
Lemma rounding_examples :
  num_add (num_of_Z 1) two53 = two53
  /\ num_add (StringToNumber "0.1") (StringToNumber "0.2")
     = StringToNumber "0.30000000000000004"
  /\ num_gt (num_add (StringToNumber "0.1") (StringToNumber "0.2"))
       (StringToNumber "0.3") = true
  /\ StringToNumber "1.00000000000000000001" = num_of_Z 1
  /\ StringToNumber "9007199254740993" = two53
  /\ StringToNumber "1e400" = Inf false
  /\ StringToNumber "-1e400" = Inf true
  /\ StringToNumber "1e-400" = num_of_Z 0
  /\ StringToNumber "0x20000000000001" = two53.
Proof. repeat split; by vm_compute. Qed.

Lemma num_lt_of_Z a b : num_lt (num_of_Z a) (num_of_Z b) = (a <? b)%Z.
Proof.
  unfold num_lt, num_of_Z; simpl.
  destruct (Z.ltb_spec a b) as [H|H].
  - destruct (Qle_bool (inject_Z b) (inject_Z a)) eqn:E; [|done].
    apply Qle_bool_iff in E. rewrite <- Zle_Qle in E. lia.
  - apply negb_false_iff, Qle_bool_iff. by rewrite <- Zle_Qle.
Qed.

Lemma num_lt_le_gt a b c :
  num_lt c a = true -> num_le a b = true -> num_gt b c = true.
Proof.
  unfold num_lt.
  destruct a as [|s|p], b as [|t|q], c as [|u|r]; simpl; try done;
    try (by destruct s, t, u); try (by destruct s, t); try (by destruct t, u);
    try (by destruct s, u); try (by destruct s); try (by destruct t);
    try (by destruct u).
  intros Hp%negb_true_iff Hq%Qle_bool_iff. apply negb_true_iff.
  destruct (Qle_bool q r) eqn:E; [|done].
  apply Qle_bool_iff in E.
  assert (Qle_bool p r = true) as Hpr by (apply Qle_bool_iff; lra).
  congruence.
Qed.


Lemma num_lt_not_NaN a b : num_lt a b = true -> is_NaN a = false /\ is_NaN b = false.
Proof. destruct a, b; done. Qed.

(** Whole numbers. *)
Lemma whole_spec n :
  whole n = true -> n = num_of_Z (count n) /\ (0 <= count n)%Z.
Proof.
  destruct n as [| |[a d]]; try done. unfold whole, count. cbn [Qnum Qden].
  intros [->%Pos.eqb_eq H%Z.leb_le]%andb_prop. done.
Qed.

Lemma whole_of_Z z : (0 <= z)%Z -> whole (num_of_Z z) = true.
Proof. intros H. simpl. by apply Z.leb_le. Qed.

Lemma whole_nonneg n : whole n = true -> num_nonneg n = true.
Proof.
  intros [E H]%whole_spec. rewrite E. unfold num_nonneg.
  rewrite num_le_of_Z. by apply Z.leb_le.
Qed.

Lemma num_add_of_Z a b :
  (0 <= a + b < 2 ^ 53)%Z -> num_add (num_of_Z a) (num_of_Z b) = num_of_Z (a + b).
Proof.
  intros H. unfold num_of_Z at 1 2. cbn [num_add].
  rewrite Qred_plus_inject_Z. by apply round64_whole.
Qed.

Lemma num_add_big a b :
  (2 ^ 53 <= a + b)%Z -> num_le two53 (num_add (num_of_Z a) (num_of_Z b)) = true.
Proof.
  intros H. unfold num_of_Z at 1 2. cbn [num_add].
  rewrite Qred_plus_inject_Z. by apply round64_big.
Qed.

(** On whole numbers and against a capacity below [2^53], comparing the
    rounded sum and comparing the exact sum come to the same. *)
Lemma capacity_check_exact a n cap :
  whole a = true -> whole n = true -> num_lt cap two53 = true ->
  num_gt (num_add a n) cap = num_gt (num_plus a n) cap.
Proof.
  intros [Ea Ha]%whole_spec [En Hn]%whole_spec Hcap.
  revert Ea Ha En Hn. generalize (count a) (count n).
  intros x z -> Hx -> Hz.
  rewrite num_plus_of_Z.
  destruct (Z.lt_ge_cases (x + z) (2 ^ 53)) as [Hlt|Hge].
  - by rewrite num_add_of_Z by lia.
  - rewrite (num_lt_le_gt _ _ _ Hcap (num_add_big _ _ Hge)).
    symmetry. apply (num_lt_le_gt two53); [done|].
    unfold two53. rewrite num_le_of_Z. by apply Z.leb_le.
Qed.

Lemma truthy_defined v : truthy v = true -> is_undefined v = false.
Proof. by destruct v. Qed.

(** ** Arrays: searching and filtering *)

Section arrays.
Context {A B : Type}.

Lemma find_throwing_pure (p : A -> option bool) (q : A -> bool) l :
  (forall x, p x = Some (q x)) -> find_throwing p l = Some (List.find q l).
Proof.
  intros Hp. induction l as [|x l IH]; simpl; [done|].
  rewrite Hp. simpl. by destruct (q x).
Qed.

Lemma filter_throwing_pure (p : A -> option bool) (q : A -> bool) l :
  (forall x, p x = Some (q x)) -> filter_throwing p l = Some (List.filter q l).
Proof.
  intros Hp. induction l as [|x l IH]; simpl; [done|].
  rewrite Hp, IH. simpl. by destruct (q x).
Qed.

Lemma findIndex_Some (p : A -> bool) l i :
  findIndex p l = Some i ->
  exists x, l !! i = Some x /\ p x = true /\ List.find p l = Some x.
Proof.
  revert i. induction l as [|y l IH]; intros i; simpl; [done|].
  destruct (p y) eqn:Hy.
  - intros [= <-]. eauto.
  - destruct (findIndex p l) as [j|]; simpl; [|done].
    intros [= <-]. destruct (IH j eq_refl) as (x & ? & ? & ?). eauto.
Qed.

Lemma findIndex_None (p : A -> bool) l :
  findIndex p l = None -> List.find p l = None.
Proof.
  induction l as [|y l IH]; simpl; [done|].
  destruct (p y); [done|].
  destruct (findIndex p l); simpl; [done|]. auto.
Qed.

Lemma findIndex_none_of (p : A -> bool) l :
  (forall x, In x l -> p x = false) -> findIndex p l = None.
Proof.
  induction l as [|y l IH]; simpl; [done|].
  intros H. rewrite (H y) by auto. rewrite IH; [done|]. auto.
Qed.

Lemma find_findIndex (p : A -> bool) l x :
  List.find p l = Some x -> exists i, findIndex p l = Some i /\ l !! i = Some x.
Proof.
  induction l as [|y l IH]; simpl; [done|].
  destruct (p y).
  - intros [= ->]. by exists O.
  - intros H. destruct (IH H) as (i & -> & ?). by exists (S i).
Qed.

Lemma find_none_iff (p : A -> bool) l :
  List.find p l = None <-> forall x, In x l -> p x = false.
Proof.
  split.
  - intros H x Hx. by apply (find_none p l H).
  - induction l as [|y l IH]; simpl; [done|].
    intros H. rewrite (H y) by auto. apply IH. auto.
Qed.



(** ** Arrays: updates in place *)

Lemma map_insert_same (f : A -> B) (l : list A) i x y :
  l !! i = Some x -> f y = f x -> map f (<[i := y]> l) = map f l.
Proof.
  revert i. induction l as [|a l IH]; intros [|i]; simpl; try done.
  - intros [= ->] ->. done.
  - intros H1 H2. by rewrite IH.
Qed.

Lemma map_delete (f : A -> B) (l : list A) i :
  map f (delete i l) = delete i (map f l).
Proof.
  revert i. induction l as [|a l IH]; intros [|i]; simpl; try done.
  by rewrite IH.
Qed.

Lemma map_lookup (f : A -> B) (l : list A) i x :
  l !! i = Some x -> map f l !! i = Some (f x).
Proof.
  revert i. induction l as [|a l IH]; intros [|i]; simpl; try done.
  - by intros [= ->].
  - apply IH.
Qed.

Lemma map_singleton_inv (f : A -> B) (l : list A) x y :
  map f l = [y] -> In x l -> l = [x].
Proof.
  destruct l as [|a [|b l]]; simpl; try done.
  by intros _ [->|[]].
Qed.

Lemma In_lookup (l : list A) i x : l !! i = Some x -> In x l.
Proof. intros H. apply list_elem_of_In. by eapply list_elem_of_lookup_2. Qed.

Lemma In_insert (l : list A) i y z :
  In z (<[i := y]> l) -> z = y \/ In z l.
Proof.
  revert i. induction l as [|a l IH]; intros [|i]; simpl; try done.
  - intros [<-|H]; auto.
  - intros [<-|H]; [auto|]. destruct (IH _ H); auto.
Qed.

Lemma In_delete (l : list A) i z : In z (delete i l) -> In z l.
Proof.
  revert i. induction l as [|a l IH]; intros [|i]; simpl; try done.
  - auto.
  - intros [->|H]; eauto.
Qed.

Lemma In_delete_other (l : list A) i x z :
  l !! i = Some x -> In z l -> z <> x -> In z (delete i l).
Proof.
  revert i. induction l as [|a l IH]; intros [|i]; simpl; try done.
  - intros [= ->] [->|H] Hne; done.
  - intros Hx [->|H] Hne; [by left|]. right. eauto.
Qed.

Lemma delete_nil_singleton (l : list A) i x :
  l !! i = Some x -> delete i l = [] -> l = [x].
Proof.
  destruct l as [|a [|b l]], i as [|i]; simpl; try done.
  by intros [= ->].
Qed.

Lemma list_split_at (l : list A) i x :
  l !! i = Some x ->
  exists l1 l2,
    l = l1 ++ x :: l2 /\ delete i l = l1 ++ l2
    /\ forall y, <[i := y]> l = l1 ++ y :: l2.
Proof.
  revert i. induction l as [|a l IH]; intros [|i]; simpl; try done.
  - intros [= ->]. by exists [], l.
  - intros H. destruct (IH _ H) as (l1 & l2 & -> & Hd & Hi).
    exists (a :: l1), l2. simpl. split; [done|]. split; [by rewrite Hd|].
    intros y. by rewrite Hi.
Qed.

Lemma NoDup_delete (l : list A) i : List.NoDup l -> List.NoDup (delete i l).
Proof.
  revert i. induction l as [|a l IH]; intros [|i]; simpl; try done.
  - by intros [_ H]%NoDup_cons_iff.
  - intros [H1 H2]%NoDup_cons_iff. apply NoDup_cons_iff. split; [|auto].
    intros H%In_delete. done.
Qed.

Lemma NoDup_delete_not_in (l : list A) i x :
  List.NoDup l -> l !! i = Some x -> ~ In x (delete i l).
Proof.
  revert i. induction l as [|a l IH]; intros [|i]; simpl; try done.
  - intros [H1 _]%NoDup_cons_iff [= ->]. done.
  - intros [H1 H2]%NoDup_cons_iff Hx [->|H].
    + apply H1. apply list_elem_of_In. by eapply list_elem_of_lookup_2.
    + by eapply IH.
Qed.

Lemma NoDup_map_filter (f : A -> B) (p : A -> bool) (l : list A) :
  List.NoDup (map f l) -> List.NoDup (map f (List.filter p l)).
Proof.
  induction l as [|a l IH]; simpl; [done|].
  intros [H1 H2]%NoDup_cons_iff.
  destruct (p a); simpl; [|auto].
  apply NoDup_cons_iff. split; [|auto].
  intros (y & Hy & [Hin _]%filter_In)%in_map_iff.
  apply H1. apply in_map_iff. eauto.
Qed.

Lemma NoDup_snoc (l : list A) x : List.NoDup l -> ~ In x l -> List.NoDup (l ++ [x]).
Proof.
  intros Hl Hx. induction l as [|a l IH]; simpl.
  - apply NoDup_cons_iff. split; [by intros []|constructor].
  - apply NoDup_cons_iff in Hl as [H1 H2]. apply NoDup_cons_iff. split.
    + intros [H|[->|[]]]%in_app_iff; [done|]. apply Hx. by left.
    + apply IH; [done|]. intros H. apply Hx. by right.
Qed.

Lemma NoDup_map_eq (f : A -> B) (l : list A) x y :
  List.NoDup (map f l) -> In x l -> In y l -> f x = f y -> x = y.
Proof.
  induction l as [|a l IH]; simpl; [done|].
  intros [H1 H2]%NoDup_cons_iff [->|Hx] [->|Hy] Heq; try done.
  - destruct H1. rewrite Heq. by apply in_map.
  - destruct H1. rewrite <- Heq. by apply in_map.
  - by apply IH.
Qed.

End arrays.

(** ** [nextId] *)

Lemma fold_max_bounds (l : list Z) (a : Z) :
  (a <= fold_left Z.max l a)%Z
  /\ (forall i, In i l -> (i <= fold_left Z.max l a)%Z)
  /\ (fold_left Z.max l a = a \/ In (fold_left Z.max l a) l).
Proof.
  revert a. induction l as [|x l IH]; intros a; simpl.
  - split; [lia|]. split; [done|]. by left.
  - destruct (IH (Z.max a x)) as (H1 & H2 & H3).
    split; [lia|]. split.
    + intros i [<-|Hi]; [lia|]. by apply H2.
    + destruct H3 as [H3|H3]; [|by auto].
      rewrite H3. destruct (Z.max_spec a x) as [[_ ->]|[_ ->]]; auto.
Qed.

Lemma nextId_max ids :
  ids <> [] ->
  exists m, In m ids /\ (forall i, In i ids -> (i <= m)%Z)
            /\ nextId ids = (m + 1)%Z.
Proof.
  destruct ids as [|a l]; [done|]. intros _.
  destruct (fold_max_bounds l a) as (H1 & H2 & H3).
  exists (fold_left Z.max l a). simpl. split; [|split].
  - destruct H3 as [->|]; auto.
  - intros i [<-|Hi]; auto.
  - done.
Qed.

Lemma nextId_gt ids i : In i ids -> (i < nextId ids)%Z.
Proof.
  intros Hi. destruct (nextId_max ids) as (m & _ & Hm & ->).
  - by destruct ids.
  - specialize (Hm i Hi). lia.
Qed.

Lemma nextId_fresh ids : ~ In (nextId ids) ids.
Proof. intros H%nextId_gt. lia. Qed.

Lemma nextId_pos ids : (forall i, In i ids -> (1 <= i)%Z) -> (1 <= nextId ids)%Z.
Proof.
  intros H. destruct ids as [|a l]; [done|].
  destruct (nextId_max (a :: l)) as (m & Hm & _ & ->); [done|].
  specialize (H m Hm). lia.
Qed.

(** The id handed out once the highest one has been removed. *)
Lemma nextId_after_delete_max (ids : list Z) i m :
  List.NoDup ids ->
  (forall j, In j ids -> (1 <= j)%Z) ->
  ids !! i = Some m ->
  (forall j, In j ids -> (j <= m)%Z) ->
  (nextId (delete i ids) <= m)%Z
  /\ (nextId (delete i ids) = m
      <-> In (m - 1)%Z ids \/ (ids = [m] /\ m = 1%Z)).
Proof.
  intros Hnd Hpos Hlk Hmax.
  pose proof (In_lookup _ _ _ Hlk) as Hm.
  destruct (delete i ids) as [|a l] eqn:Hdel.
  - pose proof (delete_nil_singleton _ _ _ Hlk Hdel) as ->.
    simpl. specialize (Hpos m Hm). split; [lia|]. split.
    + intros <-. by right.
    + intros [[H|[]]|[_ ->]]; [lia|done].
  - destruct (nextId_max (a :: l)) as (m' & Hm' & Hle & ->); [done|].
    rewrite <- Hdel in Hm', Hle.
    pose proof (NoDup_delete_not_in _ _ _ Hnd Hlk) as Hgone.
    assert (m' <> m) as Hne by (by intros ->).
    pose proof (Hmax m' (In_delete _ _ _ Hm')) as Hle'.
    split; [lia|]. split.
    + intros Heq. left. replace (m - 1)%Z with m' by lia.
      by eapply In_delete.
    + intros [Hin|[-> _]].
      * assert (In (m - 1)%Z (delete i ids)) as Hin'.
        { apply (In_delete_other _ _ m); [done|done|lia]. }
        specialize (Hle _ Hin'). lia.
      * by destruct i.
Qed.

(** ** Sums of seats *)

Lemma total_seats_middle l1 x l2 :
  total_seats (l1 ++ x :: l2)
  = num_plus (total_seats (l1 ++ l2)) (Booking.seats x).
Proof.
  induction l1 as [|a l1 IH]; simpl.
  - apply num_plus_comm.
  - by rewrite IH, num_plus_assoc.
Qed.

Lemma total_seats_nonneg l :
  (forall b, In b l -> num_nonneg (Booking.seats b) = true) ->
  num_nonneg (total_seats l) = true.
Proof.
  induction l as [|x l IH]; intros H; [done|].
  simpl. apply num_nonneg_add.
  - apply H. by left.
  - apply IH. intros b Hb. apply H. by right.
Qed.

(** The sum a handler computes is the running total of the seats. *)
Lemma sum_seats_added l : sum_seats l = seats_added l.
Proof.
  unfold sum_seats, seats_added. generalize (num_of_Z 0).
  induction l as [|x l IH]; intros acc; simpl; [done|]. apply IH.
Qed.

Lemma total_seats_whole l :
  whole_seats l ->
  total_seats l = num_of_Z (count_seats l) /\ (0 <= count_seats l)%Z.
Proof.
  induction l as [|x l IH]; intros H; [done|].
  destruct IH as [IH1 IH2]. { intros b Hb. apply H. by right. }
  destruct (whole_spec (Booking.seats x)) as [Hx Hx0]. { apply H. by left. }
  cbn [total_seats count_seats]. revert Hx Hx0.
  generalize (count (Booking.seats x)). intros c -> Hc.
  rewrite IH1, num_plus_of_Z. split; [done|lia].
Qed.

(** No addition rounds while the seats are whole and their sum stays
    below [2^53]: the handler's sum is then the exact one. *)
Lemma sum_seats_exact l :
  whole_seats l -> num_lt (total_seats l) two53 = true ->
  sum_seats l = total_seats l.
Proof.
  intros Hw Hlt. destruct (total_seats_whole l Hw) as [Ht _].
  rewrite Ht in Hlt |- *. unfold two53 in Hlt. rewrite num_lt_of_Z in Hlt.
  apply Z.ltb_lt in Hlt. clear Ht.
  unfold sum_seats.
  enough (forall a, (0 <= a)%Z -> (a + count_seats l < 2 ^ 53)%Z ->
            fold_left (fun s b => num_add s (Booking.seats b)) l (num_of_Z a)
            = num_of_Z (a + count_seats l)) as H.
  { by rewrite H by lia. }
  clear Hlt.
  induction l as [|x l IH]; intros a Ha Hb; cbn [fold_left count_seats] in *.
  - by rewrite Z.add_0_r.
  - destruct (total_seats_whole l) as [_ Hl]. { intros b Hb'. apply Hw. by right. }
    destruct (whole_spec (Booking.seats x)) as [Hx Hx0]. { apply Hw. by left. }
    revert Hx Hx0 Hb. generalize (count (Booking.seats x)). intros c -> Hc Hb.
    rewrite num_add_of_Z by lia.
    rewrite IH; [f_equal; lia| |lia|lia].
    intros b Hb'. apply Hw. by right.
Qed.

Lemma seats_check_exact l n cap :
  whole_seats l -> num_lt (total_seats l) two53 = true ->
  whole n = true -> num_lt cap two53 = true ->
  num_gt (num_add (sum_seats l) n) cap = num_gt (num_plus (total_seats l) n) cap.
Proof.
  intros Hw Hlt Hn Hcap. rewrite (sum_seats_exact l Hw Hlt).
  apply capacity_check_exact; try done.
  destruct (total_seats_whole l Hw) as [-> H0]. by apply whole_of_Z.
Qed.

Lemma bookings_for_middle id l1 x l2 :
  bookings_for id (l1 ++ x :: l2)
  = bookings_for id l1
    ++ (if num_eq (Booking.eventId x) id then [x] else [])
    ++ bookings_for id l2.
Proof.
  unfold bookings_for. rewrite List.filter_app. simpl.
  by destruct (num_eq (Booking.eventId x) id).
Qed.

Lemma seats_for_middle id l1 x l2 :
  total_seats (bookings_for id (l1 ++ x :: l2))
  = if num_eq (Booking.eventId x) id
    then num_plus (total_seats (bookings_for id (l1 ++ l2))) (Booking.seats x)
    else total_seats (bookings_for id (l1 ++ l2)).
Proof.
  assert (bookings_for id (l1 ++ l2) = bookings_for id l1 ++ bookings_for id l2)
    as -> by apply List.filter_app.
  rewrite bookings_for_middle.
  destruct (num_eq (Booking.eventId x) id); simpl; [|done].
  apply total_seats_middle.
Qed.



(** With ids not repeated, the bookings the update handler sums are the
    bookings of the event once the updated one is taken out. *)
Lemma other_bookings_split cur l1 l2 :
  List.NoDup (map Booking.id (l1 ++ cur :: l2)) ->
  other_bookings cur (l1 ++ cur :: l2)
  = bookings_for (Booking.eventId cur) (l1 ++ l2).
Proof.
  intros Hnd. unfold other_bookings, bookings_for.
  rewrite !List.filter_app. simpl. rewrite Z.eqb_refl, andb_false_r.
  rewrite map_app in Hnd. simpl in Hnd.
  apply NoDup_remove_2 in Hnd.
  f_equal; apply filter_ext_in; intros b Hb;
    (destruct (Z.eqb_spec (Booking.id b) (Booking.id cur)) as [Heq|Hne];
     [|by rewrite andb_true_r]);
    destruct Hnd; apply in_app_iff; rewrite <- Heq; [left|right];
    by apply in_map.
Qed.

(** ** The event handlers, case by case *)

Lemma post_events_add_eq s body :
  handle (POST_events_add body) s =
    if negb (truthy (prop body "title")) || negb (truthy (prop body "date"))
       || negb (truthy (prop body "capacity"))
    then (s, Sent (mkResponse 400
                     (ErrorBody "title, date and capacity are required")))
    else
      match Number (prop body "capacity") with
      | None => (s, Uncaught)
      | Some cap =>
          let e :=
            Event.mk (nextId (map Event.id (events s))) (prop body "title")
              (or_empty (prop body "description")) (prop body "date") cap
              (or_empty (prop body "location")) in
          (mkState (events s ++ [e]) (bookings s),
           Sent (mkResponse 201 (EventBody e)))
      end.
Proof.
  unfold handle, route, post_events_add, run.
  destruct (_ || _); [done|].
  unfold bind at 1. unfold get_events at 1.
  unfold bind at 1.
  by destruct (Number (prop body "capacity")).
Qed.

Lemma post_events_add_created s body e :
  snd (handle (POST_events_add body) s) = Sent (mkResponse 201 (EventBody e)) ->
  Event.id e = nextId (event_ids s)
  /\ fst (handle (POST_events_add body) s)
     = mkState (events s ++ [e]) (bookings s).
Proof.
  rewrite post_events_add_eq. destruct (_ || _); [done|].
  destruct (Number (prop body "capacity")); [|done].
  cbv zeta. cbn [fst snd]. by intros [= <-].
Qed.

Lemma get_event_eq s id_param :
  handle (GET_event id_param) s
  = (s, match List.find (event_has_id (StringToNumber id_param)) (events s) with
        | None => NotFound_event
        | Some ev => Sent (mkResponse 200 (EventBody ev))
        end).
Proof.
  unfold handle, route, get_event, run.
  unfold bind at 1. unfold get_events at 1.
  by destruct (List.find _ (events s)).
Qed.

Lemma forEach_allowed update evIndex keys s e :
  events s !! evIndex = Some e ->
  forEach
    (fun k =>
       if negb (is_undefined (prop update k)) then
         evs <- get_events ;;
         e <- try (evs !! evIndex) ;;
         e' <- try (Event.assign k (prop update k) e) ;;
         set_events (<[evIndex := e']> evs)
       else ret tt)
    keys s
  = (mkState (<[evIndex := fst (assign_all update keys e)]> (events s))
       (bookings s),
     if snd (assign_all update keys e) then Next tt else Stop Uncaught).
Proof.
  revert s e. induction keys as [|k keys IH]; intros s e He.
  - simpl. rewrite list_insert_id by done. by destruct s.
  - change (forEach ?f (k :: keys)) with (_ <- f k ;; forEach f keys).
    cbn [assign_all]. unfold bind at 1.
    destruct (is_undefined (prop update k)) eqn:Hk; cbn [negb].
    + by apply IH.
    + unfold bind, get_events, try. rewrite He. cbn [ret].
      destruct (Event.assign k (prop update k) e) as [e'|]; simpl.
      * rewrite (IH _ e'); simpl.
        -- by rewrite list_insert_insert_eq.
        -- apply list_lookup_insert_eq. by eapply lookup_lt_Some.
      * unfold throw. rewrite list_insert_id by done. by destruct s.
Qed.

Lemma put_event_unknown s id_param update :
  findIndex (event_has_id (StringToNumber id_param)) (events s) = None ->
  handle (PUT_event id_param update) s = (s, NotFound_event).
Proof.
  intros H. unfold handle, route, put_event, run.
  unfold bind at 1. unfold get_events at 1. by rewrite H.
Qed.

Lemma put_event_found s id_param update evIndex e :
  findIndex (event_has_id (StringToNumber id_param)) (events s) = Some evIndex ->
  events s !! evIndex = Some e ->
  handle (PUT_event id_param update) s
  = (mkState (<[evIndex := fst (assign_all update allowed e)]> (events s))
       (bookings s),
     if snd (assign_all update allowed e)
     then Sent (mkResponse 200 (EventBody (fst (assign_all update allowed e))))
     else Uncaught).
Proof.
  intros Hidx He. unfold handle, route, put_event, run.
  unfold bind at 1. unfold get_events at 1. rewrite Hidx.
  unfold bind at 1. rewrite (forEach_allowed _ _ _ _ e) by done.
  destruct (snd (assign_all update allowed e)); [|done].
  unfold bind, get_events, reply; simpl.
  rewrite list_lookup_insert_eq by (by eapply lookup_lt_Some). done.
Qed.

Lemma assign_all_id update keys e :
  Event.id (fst (assign_all update keys e)) = Event.id e.
Proof.
  revert e. induction keys as [|k keys IH]; intros e; simpl; [done|].
  destruct (is_undefined (prop update k)); [done|].
  destruct (Event.assign k (prop update k) e) as [e'|] eqn:Ha; [|done].
  rewrite IH. unfold Event.assign in Ha.
  repeat (destruct (String.eqb k _); [by simplify_option_eq|]).
  by simplify_eq.
Qed.

Lemma assign_all_capacity update e c :
  is_undefined (prop update "capacity") = false ->
  Number (prop update "capacity") = Some c ->
  snd (assign_all update allowed e) = true
  /\ Event.capacity (fst (assign_all update allowed e)) = c.
Proof.
  intros Hu Hc. unfold allowed. simpl. rewrite Hu.
  allowed_cases update;
    unfold Event.assign; simpl; rewrite Hc; done.
Qed.


Lemma delete_event_unknown s id_param :
  findIndex (event_has_id (StringToNumber id_param)) (events s) = None ->
  handle (DELETE_event id_param) s = (s, NotFound_event).
Proof.
  intros H. unfold handle, route, delete_event, run.
  unfold bind at 1. unfold get_events at 1. by rewrite H.
Qed.

Lemma delete_event_found s id_param evIndex :
  findIndex (event_has_id (StringToNumber id_param)) (events s) = Some evIndex ->
  handle (DELETE_event id_param) s
  = (mkState (delete evIndex (events s))
       (List.filter (booking_not_for (StringToNumber id_param)) (bookings s)),
     Sent (mkResponse 200
             (EventCancelled "Event cancelled" (events s !! evIndex)))).
Proof.
  intros H. unfold handle, route, delete_event, run.
  unfold bind at 1. unfold get_events at 1. by rewrite H.
Qed.

(** ** The booking handlers, case by case *)

Lemma post_bookings_invalid s body now :
  truthy (prop body "eventId") && truthy (prop body "name")
  && truthy (prop body "email") && truthy (prop body "seats") = false ->
  handle (POST_bookings body now) s = (s, ValidationError_booking).
Proof.
  intros H. unfold handle, route, post_bookings, run.
  destruct (truthy (prop body "eventId")), (truthy (prop body "name")),
    (truthy (prop body "email")), (truthy (prop body "seats")); done.
Qed.

Lemma post_bookings_valid s body now eid :
  truthy (prop body "eventId") && truthy (prop body "name")
  && truthy (prop body "email") && truthy (prop body "seats") = true ->
  Number (prop body "eventId") = Some eid ->
  handle (POST_bookings body now) s =
    match List.find (event_has_id eid) (events s) with
    | None => (s, NotFound_event)
    | Some ev =>
        match Number (prop body "seats") with
        | None => (s, Uncaught)
        | Some n =>
            if num_gt (num_add (sum_seats (bookings_for eid (bookings s))) n)
                 (Event.capacity ev)
            then (s, CapacityExceeded_create)
            else
              let b :=
                Booking.mk (nextId (map Booking.id (bookings s))) eid
                  (prop body "name") (prop body "email")
                  (or_empty (prop body "phone")) n now in
              (mkState (events s) (bookings s ++ [b]),
               Sent (mkResponse 201 (BookingBody b)))
        end
    end.
Proof.
  intros Ht Heid. unfold handle, route, post_bookings, run.
  destruct (truthy (prop body "eventId")), (truthy (prop body "name")),
    (truthy (prop body "email")), (truthy (prop body "seats")); try done.
  cbn [negb orb].
  unfold bind at 1. unfold get_events at 1.
  unfold bind at 1.
  rewrite (find_throwing_pure _ (event_has_id eid)); cycle 1.
  { intros e. unfold event_matches. by rewrite Heid. }
  cbn [try ret].
  destruct (List.find _ (events s)) as [ev|]; [|done].
  unfold bind at 1.
  destruct (Number (prop body "seats")) as [n|]; [|done]. cbn [try ret].
  unfold bind at 1. unfold get_bookings at 1.
  unfold bind at 1.
  rewrite (filter_throwing_pure _ (fun b => num_eq (Booking.eventId b) eid));
    cycle 1.
  { intros b. unfold booking_matches. by rewrite Heid. }
  cbn [try ret]. fold (bookings_for eid (bookings s)).
  destruct (num_gt _ (Event.capacity ev)); [done|].
  unfold bind at 1. rewrite Heid. cbn [try ret].
  unfold bind, set_bookings, reply. done.
Qed.

(** When [Number(eventId)] throws, it does so in the first call of the
    [find] callback; with no event stored the callback never runs. *)
Lemma post_bookings_throwing s body now :
  truthy (prop body "eventId") && truthy (prop body "name")
  && truthy (prop body "email") && truthy (prop body "seats") = true ->
  Number (prop body "eventId") = None ->
  handle (POST_bookings body now) s
  = (s, if is_nil (events s) then NotFound_event else Uncaught).
Proof.
  intros Ht Heid. unfold handle, route, post_bookings, run.
  destruct (truthy (prop body "eventId")), (truthy (prop body "name")),
    (truthy (prop body "email")), (truthy (prop body "seats")); try done.
  cbn [negb orb].
  unfold bind at 1. unfold get_events at 1.
  unfold bind at 1.
  destruct (events s) as [|e evs]; [done|].
  simpl. unfold event_matches. by rewrite Heid.
Qed.

Lemma post_bookings_created s body now b :
  snd (handle (POST_bookings body now) s) = Sent (mkResponse 201 (BookingBody b)) ->
  Booking.id b = nextId (booking_ids s)
  /\ fst (handle (POST_bookings body now) s)
     = mkState (events s) (bookings s ++ [b]).
Proof.
  destruct (truthy (prop body "eventId") && truthy (prop body "name")
            && truthy (prop body "email") && truthy (prop body "seats")) eqn:Ht.
  - destruct (Number (prop body "eventId")) as [eid|] eqn:Heid.
    + rewrite (post_bookings_valid _ _ _ _ Ht Heid).
      destruct (List.find _ (events s)); [|done].
      destruct (Number (prop body "seats")); [|done].
      destruct (num_gt _ _); [done|].
      cbv zeta. cbn [fst snd]. by intros [= <-].
    + rewrite (post_bookings_throwing _ _ _ Ht Heid).
      by destruct (is_nil (events s)).
  - by rewrite (post_bookings_invalid _ _ _ Ht).
Qed.

Lemma get_booking_eq s id_param :
  handle (GET_booking id_param) s
  = (s, match List.find (booking_has_id (StringToNumber id_param)) (bookings s) with
        | None => NotFound_booking
        | Some b => Sent (mkResponse 200 (BookingBody b))
        end).
Proof.
  unfold handle, route, get_booking, run.
  unfold bind at 1. unfold get_bookings at 1.
  by destruct (List.find _ (bookings s)).
Qed.

Lemma event_of_booking_at_pure bks idx cur :
  bks !! idx = Some cur ->
  forall e, event_of_booking_at bks idx e
            = Some (event_has_id (Booking.eventId cur) e).
Proof. intros H e. unfold event_of_booking_at. by rewrite H. Qed.

Lemma other_booking_at_pure bks idx id cur :
  bks !! idx = Some cur ->
  booking_has_id id cur = true ->
  forall b, other_booking_at bks idx id b
            = Some (num_eq (Booking.eventId b) (Booking.eventId cur)
                    && negb (Z.eqb (Booking.id b) (Booking.id cur))).
Proof.
  intros H Hid b. unfold other_booking_at. rewrite H.
  cbn [mbind option_bind]. do 3 f_equal.
  exact (num_eq_of_Z_inv _ _ _ Hid).
Qed.

Lemma forEach_contact update idx keys s b :
  bookings s !! idx = Some b ->
  forEach
    (fun k =>
       if negb (is_undefined (prop update k)) then
         bks <- get_bookings ;;
         b <- try (bks !! idx) ;;
         set_bookings (<[idx := Booking.assign k (prop update k) b]> bks)
       else ret tt)
    keys s
  = (mkState (events s)
       (<[idx := fold_left
                   (fun b k =>
                      if is_undefined (prop update k) then b
                      else Booking.assign k (prop update k) b)
                   keys b]> (bookings s)),
     Next tt).
Proof.
  revert s b. induction keys as [|k keys IH]; intros s b Hb.
  - simpl. rewrite list_insert_id by done. by destruct s.
  - change (forEach ?f (k :: keys)) with (_ <- f k ;; forEach f keys).
    cbn [fold_left]. unfold bind at 1.
    destruct (is_undefined (prop update k)) eqn:Hk; simpl.
    + by apply IH.
    + unfold bind, get_bookings, try, set_bookings, ret. rewrite Hb. simpl.
      rewrite (IH _ (Booking.assign k (prop update k) b)); simpl.
      * by rewrite list_insert_insert_eq.
      * apply list_lookup_insert_eq. by eapply lookup_lt_Some.
Qed.

Lemma apply_contact_seats update b :
  Booking.seats (apply_contact update b) = Booking.seats b.
Proof.
  unfold apply_contact; simpl.
  by contact_cases update.
Qed.

Lemma apply_contact_id update b :
  Booking.id (apply_contact update b) = Booking.id b.
Proof.
  unfold apply_contact; simpl.
  by contact_cases update.
Qed.

Lemma apply_contact_eventId update b :
  Booking.eventId (apply_contact update b) = Booking.eventId b.
Proof.
  unfold apply_contact; simpl.
  by contact_cases update.
Qed.

Lemma apply_contact_contact update b k :
  In k ["name"; "email"; "phone"]%string ->
  contact k (apply_contact update b)
  = if is_undefined (prop update k) then contact k b else prop update k.
Proof.
  unfold apply_contact; simpl.
  intros [<-|[<-|[<-|[]]]];
    by contact_cases update.
Qed.

Lemma apply_contact_set_seats update n cur :
  Booking.seats (apply_contact update (Booking.set_seats n cur)) = n.
Proof. by rewrite apply_contact_seats. Qed.

Lemma put_booking_found s id_param update idx cur :
  findIndex (booking_has_id (StringToNumber id_param)) (bookings s) = Some idx ->
  bookings s !! idx = Some cur ->
  handle (PUT_booking id_param update) s =
    let finish seated :=
      let b' := apply_contact update seated in
      (mkState (events s) (<[idx := b']> (bookings s)),
       Sent (mkResponse 200 (BookingBody b'))) in
    if is_undefined (prop update "seats") then finish cur
    else
      match List.find (event_has_id (Booking.eventId cur)) (events s) with
      | None => (s, InternalError_update)
      | Some ev =>
          match Number (prop update "seats") with
          | None => (s, Uncaught)
          | Some n =>
              if num_gt (num_add (sum_seats (other_bookings cur (bookings s))) n)
                   (Event.capacity ev)
              then (s, CapacityExceeded_update)
              else finish (Booking.set_seats n cur)
          end
      end.
Proof.
  intros Hidx Hcur.
  destruct (findIndex_Some _ _ _ Hidx) as (x & Hx & Hid & _).
  assert (x = cur) as -> by congruence.
  unfold handle, route, put_booking, run.
  unfold bind at 1. unfold get_bookings at 1. rewrite Hidx.
  unfold bind at 1.
  destruct (is_undefined (prop update "seats")) eqn:Hseats; cbn [negb].
  - unfold ret at 1. unfold bind at 1. rewrite (forEach_contact _ _ _ _ cur) by done.
    unfold bind, get_bookings, reply; simpl.
    rewrite list_lookup_insert_eq by (by eapply lookup_lt_Some). done.
  - unfold bind at 1. unfold get_events at 1.
    unfold bind at 1.
    rewrite (find_throwing_pure _ _ _ (event_of_booking_at_pure _ _ _ Hcur)).
    simpl.
    destruct (List.find _ (events s)) as [ev|]; [|done].
    unfold bind at 1. rewrite Hcur. simpl.
    unfold bind at 1.
    destruct (Number (prop update "seats")) as [n|]; [|done]. simpl.
    unfold bind at 1.
    rewrite (filter_throwing_pure _ _ _ (other_booking_at_pure _ _ _ _ Hcur Hid)).
    simpl. fold (other_bookings cur (bookings s)).
    destruct (num_gt _ _); [done|].
    unfold set_bookings at 1.
    unfold bind at 1.
    rewrite (forEach_contact _ _ _ _ (Booking.set_seats n cur)); simpl.
    + unfold bind, get_bookings, reply; simpl.
      rewrite list_insert_insert_eq.
      rewrite list_lookup_insert_eq by (by eapply lookup_lt_Some). done.
    + apply list_lookup_insert_eq. by eapply lookup_lt_Some.
Qed.

Lemma put_booking_unknown s id_param update :
  (forall b, In b (bookings s) ->
             booking_has_id (StringToNumber id_param) b = false) ->
  handle (PUT_booking id_param update) s = (s, NotFound_booking).
Proof.
  intros H. unfold handle, route, put_booking, run.
  unfold bind at 1. unfold get_bookings at 1.
  by rewrite (findIndex_none_of _ _ H).
Qed.

Lemma delete_booking_unknown s id_param :
  findIndex (booking_has_id (StringToNumber id_param)) (bookings s) = None ->
  handle (DELETE_booking id_param) s = (s, NotFound_booking).
Proof.
  intros H. unfold handle, route, delete_booking, run.
  unfold bind at 1. unfold get_bookings at 1. by rewrite H.
Qed.

Lemma delete_booking_found s id_param idx :
  findIndex (booking_has_id (StringToNumber id_param)) (bookings s) = Some idx ->
  handle (DELETE_booking id_param) s
  = (mkState (events s) (delete idx (bookings s)),
     Sent (mkResponse 200
             (BookingCancelled "Booking cancelled" (bookings s !! idx)))).
Proof.
  intros H. unfold handle, route, delete_booking, run.
  unfold bind at 1. unfold get_bookings at 1. by rewrite H.
Qed.

(** ** What a request does to the storage *)

Lemma handle_effect r s : effect s r (fst (handle r s)).
Proof.
  destruct r as [|body|id|id update|id| |body now|id|id update|id].
  - apply effect_none.
  - rewrite post_events_add_eq.
    destruct (truthy (prop body "title")), (truthy (prop body "date")),
      (truthy (prop body "capacity")) eqn:Hc; try apply effect_none.
    cbn [negb orb].
    destruct (Number (prop body "capacity")) as [cap|] eqn:Hn;
      [|apply effect_none].
    by apply effect_event_added.
  - rewrite get_event_eq. apply effect_none.
  - destruct (findIndex (event_has_id (StringToNumber id)) (events s))
      as [i|] eqn:Hi.
    + destruct (findIndex_Some _ _ _ Hi) as (e & Hlk & _).
      rewrite (put_event_found _ _ _ _ _ Hi Hlk).
      by apply effect_event_updated.
    + rewrite put_event_unknown by done. apply effect_none.
  - destruct (findIndex (event_has_id (StringToNumber id)) (events s))
      as [i|] eqn:Hi.
    + destruct (findIndex_Some _ _ _ Hi) as (e & Hlk & _).
      rewrite (delete_event_found _ _ _ Hi).
      by eapply effect_event_deleted.
    + rewrite delete_event_unknown by done. apply effect_none.
  - apply effect_none.
  - destruct (truthy (prop body "eventId") && truthy (prop body "name")
              && truthy (prop body "email") && truthy (prop body "seats"))
      eqn:Ht.
    + destruct (Number (prop body "eventId")) as [eid|] eqn:Heid.
      * rewrite (post_bookings_valid _ _ _ _ Ht Heid).
        destruct (List.find _ (events s)) as [ev|] eqn:Hev;
          [|apply effect_none].
        destruct (Number (prop body "seats")) as [n|] eqn:Hn;
          [|apply effect_none].
        destruct (num_gt _ _) eqn:Hgt; [apply effect_none|].
        apply andb_prop in Ht as [_ Hs].
        by eapply effect_booking_added.
      * rewrite (post_bookings_throwing _ _ _ Ht Heid). apply effect_none.
    + rewrite (post_bookings_invalid _ _ _ Ht). apply effect_none.
  - rewrite get_booking_eq. apply effect_none.
  - destruct (findIndex (booking_has_id (StringToNumber id)) (bookings s))
      as [idx|] eqn:Hidx.
    + destruct (findIndex_Some _ _ _ Hidx) as (cur & Hcur & _).
      rewrite (put_booking_found _ _ _ _ _ Hidx Hcur). cbv zeta.
      destruct (is_undefined (prop update "seats")) eqn:Hu.
      { by apply effect_booking_contact. }
      destruct (List.find _ (events s)) as [ev|] eqn:Hev;
        [|apply effect_none].
      destruct (Number (prop update "seats")) as [n|] eqn:Hn;
        [|apply effect_none].
      destruct (num_gt _ _) eqn:Hgt; [apply effect_none|].
      by eapply effect_booking_seated.
    + rewrite put_booking_unknown; [apply effect_none|].
      apply find_none_iff. by apply findIndex_None.
  - destruct (findIndex (booking_has_id (StringToNumber id)) (bookings s))
      as [i|] eqn:Hi.
    + rewrite (delete_booking_found _ _ _ Hi).
      by apply effect_booking_deleted.
    + rewrite delete_booking_unknown by done. apply effect_none.
Qed.

Lemma serve_snoc rs r s : serve (rs ++ [r]) s = fst (handle r (serve rs s)).
Proof. unfold serve. by rewrite fold_left_app. Qed.

Lemma reachable_serve boot rs : reachable boot (serve rs (init boot)).
Proof.
  induction rs as [|r rs IH] using rev_ind; [apply reachable_init|].
  rewrite serve_snoc. by apply reachable_step.
Qed.

(** ** Well-formedness of every reachable storage *)

Lemma well_formed_init boot : well_formed (init boot).
Proof.
  repeat split; simpl.
  - repeat constructor. by intros [].
  - repeat constructor. by intros [].
  - intros b [<-|[]]. exists 1%Z. split; [by left|done].
  - intros i [<-|[]]. done.
  - intros i [<-|[]]. done.
Qed.

Lemma well_formed_handle r s :
  well_formed s -> well_formed (fst (handle r s)).
Proof.
  intros Hwf. pose proof Hwf as (He & Hb & Href & Hep & Hbp).
  destruct (handle_effect r s)
    as [r|body cap _ _|id update i e _ Hlk|id i e Hi Hlk
        |body now eid ev n _ Hev _ _ _|id update idx cur _ Hcur _
        |id update idx cur ev n _ Hcur _ _ _ _|id idx _];
    [done|..]; unfold well_formed, event_ids, booking_ids in *;
    cbn [events bookings].
  - (* an event is added *)
    rewrite map_app. cbn [map Event.id]. repeat split; try done.
    + apply NoDup_snoc; [done|]. apply nextId_fresh.
    + intros b Hin. destruct (Href b Hin) as (i & Hi & Heq).
      exists i. split; [|done]. apply in_app_iff. by left.
    + intros i [Hi|[<-|[]]]%in_app_iff; [by apply Hep|]. by apply nextId_pos.
  - (* an event is updated *)
    by rewrite (map_insert_same _ _ _ e) by (done || apply assign_all_id).
  - (* an event is deleted, with its bookings *)
    destruct (findIndex_Some _ _ _ Hi) as (x & Hx & Hid & _).
    assert (x = e) as -> by congruence.
    rewrite map_delete. repeat split.
    + by apply NoDup_delete.
    + by apply NoDup_map_filter.
    + intros b [Hin Hnot]%filter_In.
      destruct (Href b Hin) as (j & Hj & Hjb). exists j. split; [|done].
      apply (In_delete_other _ _ (Event.id e)); [by apply map_lookup|done|].
      intros ->. unfold booking_not_for in Hnot. unfold event_has_id in Hid.
      rewrite <- (num_eq_compat _ _ (Booking.eventId b) Hid) in Hnot.
      rewrite num_eq_sym, Hjb in Hnot. done.
    + intros j Hj%In_delete. by apply Hep.
    + intros j (b & <- & [Hin _]%filter_In)%in_map_iff.
      apply Hbp. by apply in_map.
  - (* a booking is added *)
    apply find_some in Hev as [Hin Hid].
    rewrite map_app. cbn [map Booking.id]. repeat split; try done.
    + apply NoDup_snoc; [done|]. apply nextId_fresh.
    + intros b0 [Hb0|[<-|[]]]%in_app_iff; [by apply Href|].
      exists (Event.id ev). split; [by apply in_map|]. exact Hid.
    + intros i [Hi|[<-|[]]]%in_app_iff; [by apply Hbp|]. by apply nextId_pos.
  - (* name, email, phone of a booking are replaced *)
    rewrite (map_insert_same _ _ _ cur) by (done || apply apply_contact_id).
    repeat split; try done.
    intros b0 [->|Hin]%In_insert; [|by apply Href].
    rewrite apply_contact_eventId. apply Href. by eapply In_lookup.
  - (* the seats of a booking are replaced *)
    rewrite (map_insert_same _ _ _ cur) by (done || by rewrite apply_contact_id).
    repeat split; try done.
    intros b0 [->|Hin]%In_insert; [|by apply Href].
    rewrite apply_contact_eventId. cbn [Booking.set_seats Booking.eventId].
    apply Href. by eapply In_lookup.
  - (* a booking is deleted *)
    rewrite map_delete. repeat split; try done.
    + by apply NoDup_delete.
    + intros b Hin%In_delete. by apply Href.
    + intros j Hj%In_delete. by apply Hbp.
Qed.

Lemma reachable_well_formed boot s : reachable boot s -> well_formed s.
Proof.
  induction 1 as [|s r _ IH]; [apply well_formed_init|].
  by apply well_formed_handle.
Qed.

Lemma same_event_id id e1 e2 :
  event_has_id id e1 = true -> event_has_id id e2 = true ->
  Event.id e1 = Event.id e2.
Proof.
  unfold event_has_id. intros H1 H2.
  rewrite (num_eq_of_Z_inv _ _ _ H2) in H1. by apply Z.eqb_eq in H1.
Qed.

Lemma same_booking_id id b1 b2 :
  booking_has_id id b1 = true -> booking_has_id id b2 = true ->
  Booking.id b1 = Booking.id b2.
Proof.
  unfold booking_has_id. intros H1 H2.
  rewrite (num_eq_of_Z_inv _ _ _ H2) in H1. by apply Z.eqb_eq in H1.
Qed.

(** With ids not repeated, the event found for an id is the event that
    carries it. *)
Lemma findIndex_event s id ev :
  List.NoDup (event_ids s) -> In ev (events s) -> event_has_id id ev = true ->
  exists evIndex,
    findIndex (event_has_id id) (events s) = Some evIndex
    /\ events s !! evIndex = Some ev.
Proof.
  intros Hnd Hin Hid.
  destruct (List.find (event_has_id id) (events s)) as [x|] eqn:Hf.
  - destruct (find_findIndex _ _ _ Hf) as (i & Hi & Hlk).
    apply find_some in Hf as [Hx Hxid].
    assert (x = ev) as ->; [|by exists i].
    apply (NoDup_map_eq Event.id (events s)); try done.
    by eapply same_event_id.
  - rewrite (proj1 (find_none_iff _ _) Hf ev Hin) in Hid. done.
Qed.

Lemma findIndex_booking s id b :
  List.NoDup (booking_ids s) -> In b (bookings s) -> booking_has_id id b = true ->
  exists idx,
    findIndex (booking_has_id id) (bookings s) = Some idx
    /\ bookings s !! idx = Some b.
Proof.
  intros Hnd Hin Hid.
  destruct (List.find (booking_has_id id) (bookings s)) as [x|] eqn:Hf.
  - destruct (find_findIndex _ _ _ Hf) as (i & Hi & Hlk).
    apply find_some in Hf as [Hx Hxid].
    assert (x = b) as ->; [|by exists i].
    apply (NoDup_map_eq Booking.id (bookings s)); try done.
    by eapply same_booking_id.
  - rewrite (proj1 (find_none_iff _ _) Hf b Hin) in Hid. done.
Qed.



(** ** The capacity bound (C1) *)




(** With whole seats, a total that is within a capacity below [2^53],
    and a whole number of seats asked for, a check that lets the request
    through leaves the total with the new seats within the capacity. *)
Lemma admitted_within l n cap :
  whole_seats l -> whole n = true -> num_lt cap two53 = true ->
  num_lt (total_seats l) two53 = true ->
  num_gt (num_add (sum_seats l) n) cap = false ->
  num_le (num_plus (total_seats l) n) cap = true.
Proof.
  intros Hw Hn Hcap Hlt Hgt.
  rewrite (seats_check_exact l n cap Hw Hlt Hn Hcap) in Hgt.
  apply num_gt_false_le; [done| |by destruct (num_lt_not_NaN _ _ Hcap)].
  apply num_nonneg_not_NaN, num_nonneg_add; [|by apply whole_nonneg].
  apply total_seats_nonneg. intros b Hb. by apply whole_nonneg, Hw.
Qed.








(** ** Booking creation (C2) *)

(** C2 as stated fails, in two ways.  The sum the handler compares is a
    sum of doubles: with a capacity of [2^53] and one seat booked, a
    request for [2^53] seats is accepted, although the seats booked plus
    the seats requested exceed the capacity.  And a [seats] input on
    which [Number] throws passes the validation and the event lookup and
    then ends the handler with no answer of its own: the request is
    neither rejected for capacity nor stored. *)
Lemma booking_create_outside_the_checks :
  let create seats : gmap string value :=
    {[ "eventId"%string := JNum (num_of_Z 1); "name"%string := JStr "Ravi";
       "email"%string := JStr "ravi@example.com"; "seats"%string := seats ]} in
  let s :=
    fst (handle (PUT_event "1" {[ "capacity"%string := JNum two53 ]})
           (init "t0")) in
  let b :=
    Booking.mk 2 (num_of_Z 1) (JStr "Ravi") (JStr "ravi@example.com")
      (JStr "") two53 "t1" in
  let thrower := JObj [("toString"%string, JNull)] in
  (reachable "t0" s
   /\ map Event.capacity (events s) = [two53]
   /\ seats_booked s (num_of_Z 1) = num_of_Z 1
   /\ num_gt (num_plus (seats_booked s (num_of_Z 1)) two53) two53 = true
   /\ handle (POST_bookings (create (JNum two53)) "t1") s
      = (mkState (events s) (bookings s ++ [b]),
         Sent (mkResponse 201 (BookingBody b))))
  /\ (truthy thrower = true
      /\ List.find (event_has_id (num_of_Z 1)) (events (init "t0"))
         = Some sample_event
      /\ handle (POST_bookings (create thrower) "t1") (init "t0")
         = (init "t0", Uncaught)).
Proof.
  intros create s b thrower. split.
  - split; [apply reachable_step, reachable_init|].
    repeat split; by vm_compute.
  - repeat split; by vm_compute.
Qed.

(** C2, amended.  Booking Create answers ValidationError exactly when
    one of [eventId], [name], [email], [seats] is missing or falsy.
    Otherwise, when [Number] throws on [eventId], the handler ends with
    that exception unless no event is stored, in which case it answers
    NotFound; with [eid] the coerced [eventId] it answers NotFound
    exactly when no event has that id.  Otherwise, when [Number] throws
    on [seats], the handler ends with that exception; with [n] the
    coerced [seats] it answers CapacityExceeded exactly when the seats
    of the event's bookings, added up in storage order as doubles, plus
    [n] exceed the capacity, and otherwise appends a booking with the
    next id and the current time stamp and returns it.  When the seats
    stored for the event and [n] are whole numbers and the sum of the
    stored seats and the capacity lie below [2^53], this is exactly when
    the sum of the stored seats plus [n] exceeds the capacity. *)
Theorem booking_create_checks s body now :
  let eventId := prop body "eventId" in
  let name := prop body "name" in
  let email := prop body "email" in
  let seats := prop body "seats" in
  let req := POST_bookings body now in
  (snd (handle req s) = ValidationError_booking
   <-> truthy eventId = false \/ truthy name = false
       \/ truthy email = false \/ truthy seats = false)
  /\ (truthy eventId = true -> truthy name = true ->
      truthy email = true -> truthy seats = true ->
      (Number eventId = None ->
       handle req s
       = (s, if is_nil (events s) then NotFound_event else Uncaught))
      /\ forall eid, Number eventId = Some eid ->
      (snd (handle req s) = NotFound_event
       <-> forall e, In e (events s) -> event_has_id eid e = false)
      /\ forall ev,
          List.find (event_has_id eid) (events s) = Some ev ->
          (Number seats = None -> handle req s = (s, Uncaught))
          /\ forall n, Number seats = Some n ->
          let booked := seats_added (bookings_for eid (bookings s)) in
          (snd (handle req s) = CapacityExceeded_create
           <-> num_gt (num_add booked n) (Event.capacity ev) = true)
          /\ (num_gt (num_add booked n) (Event.capacity ev) = false ->
              let b :=
                Booking.mk (nextId (map Booking.id (bookings s))) eid
                  name email (or_empty (prop body "phone")) n now in
              handle req s
              = (mkState (events s) (bookings s ++ [b]),
                 Sent (mkResponse 201 (BookingBody b))))
          /\ (whole_seats (bookings_for eid (bookings s)) ->
              num_lt (seats_booked s eid) two53 = true ->
              whole n = true ->
              num_lt (Event.capacity ev) two53 = true ->
              (snd (handle req s) = CapacityExceeded_create
               <-> num_gt (num_plus (seats_booked s eid) n) (Event.capacity ev)
                   = true))).
Proof.
  intros eventId name email seats req. subst eventId name email seats req.
  split.
  - destruct (truthy (prop body "eventId") && truthy (prop body "name")
              && truthy (prop body "email") && truthy (prop body "seats"))
      eqn:Ht.
    + split.
      * destruct (Number (prop body "eventId")) as [eid|] eqn:Heid.
        -- rewrite (post_bookings_valid _ _ _ _ Ht Heid).
           destruct (List.find _ (events s)); [|done].
           destruct (Number (prop body "seats")); [|done].
           by destruct (num_gt _ _).
        -- rewrite (post_bookings_throwing _ _ _ Ht Heid).
           by destruct (is_nil (events s)).
      * apply andb_prop in Ht as [[[-> ->]%andb_prop ->]%andb_prop ->].
        intros [|[|[|]]]; done.
    + rewrite (post_bookings_invalid _ _ _ Ht). split; [|done]. intros _.
      destruct (truthy (prop body "eventId")); [|by auto].
      destruct (truthy (prop body "name")); [|by auto].
      destruct (truthy (prop body "email")); [|by auto].
      destruct (truthy (prop body "seats")); [done|by auto].
  - intros H1 H2 H3 H4.
    assert (truthy (prop body "eventId") && truthy (prop body "name")
            && truthy (prop body "email") && truthy (prop body "seats")
            = true) as Ht by (by rewrite H1, H2, H3, H4).
    split; [by apply post_bookings_throwing|].
    intros eid Heid. rewrite (post_bookings_valid _ _ _ eid Ht Heid).
    split.
    + rewrite <- find_none_iff.
      destruct (List.find _ (events s)); [|done].
      split; [|done].
      destruct (Number (prop body "seats")); [|done].
      by destruct (num_gt _ _).
    + intros ev ->. split; [by intros ->|].
      intros n ->. cbv zeta. rewrite <- sum_seats_added.
      split; [|split].
      * destruct (num_gt _ (Event.capacity ev)); simpl; split; done.
      * by intros ->.
      * intros Hw Hlt Hn Hcap. unfold seats_booked in *.
        rewrite <- (seats_check_exact _ _ _ Hw Hlt Hn Hcap).
        destruct (num_gt _ (Event.capacity ev)); simpl; split; done.
Qed.

Lemma booking_create_checks_witness :
  let body : gmap string value :=
    {[ "eventId"%string := JNum (num_of_Z 1); "name"%string := JStr "Ravi";
       "email"%string := JStr "ravi@example.com";
       "seats"%string := JNum (num_of_Z 99) ]} in
  let b :=
    Booking.mk 2 (num_of_Z 1) (JStr "Ravi") (JStr "ravi@example.com")
      (JStr "") (num_of_Z 99) "t1" in
  handle (POST_bookings body "t1") (init "t0")
  = (mkState (events (init "t0")) (bookings (init "t0") ++ [b]),
     Sent (mkResponse 201 (BookingBody b)))
  /\ (snd (handle (POST_bookings body "t1") (init "t0"))
      = CapacityExceeded_create
      <-> num_gt (num_plus (seats_booked (init "t0") (num_of_Z 1))
                    (num_of_Z 99))
            (num_of_Z 100) = true).
Proof.
  intros body b.
  destruct (booking_create_checks (init "t0") body "t1") as [_ H].
  destruct (H eq_refl eq_refl eq_refl eq_refl) as [_ H1].
  destruct (H1 (num_of_Z 1) eq_refl) as [_ H2].
  destruct (H2 sample_event eq_refl) as [_ H3].
  destruct (H3 (num_of_Z 99) eq_refl) as (_ & H4 & H5).
  split.
  - apply H4. by vm_compute.
  - apply H5; [|by vm_compute..].
    intros x [<-|[]]. by vm_compute.
Defined.

(** ** Booking update (C3, C4, C5) *)

(** C3 as stated fails, in two ways.  The sum the handler compares is a
    sum of doubles: with a capacity of [2^53] and one seat held by
    another booking, an update to [2^53] seats is accepted, although the
    other bookings' seats plus the new value exceed the capacity.  And a
    [seats] input on which [Number] throws ends the handler with no
    answer of its own: the update is neither rejected for capacity nor
    stored. *)
Lemma booking_update_outside_the_checks :
  let create : gmap string value :=
    {[ "eventId"%string := JNum (num_of_Z 1); "name"%string := JStr "Ravi";
       "email"%string := JStr "ravi@example.com";
       "seats"%string := JNum (num_of_Z 1) ]} in
  let s :=
    serve [ PUT_event "1" {[ "capacity"%string := JNum two53 ]};
            POST_bookings create "t1" ] (init "t0") in
  let cur :=
    Booking.mk 2 (num_of_Z 1) (JStr "Ravi") (JStr "ravi@example.com")
      (JStr "") (num_of_Z 1) "t1" in
  let thrower := JObj [("toString"%string, JNull)] in
  (reachable "t0" s
   /\ map Event.capacity (events s) = [two53]
   /\ bookings s !! 1%nat = Some cur
   /\ total_seats (other_bookings cur (bookings s)) = num_of_Z 1
   /\ num_gt (num_plus (total_seats (other_bookings cur (bookings s))) two53)
        two53 = true
   /\ handle (PUT_booking "2" {[ "seats"%string := JNum two53 ]}) s
      = (mkState (events s)
           (<[1%nat := Booking.set_seats two53 cur]> (bookings s)),
         Sent (mkResponse 200 (BookingBody (Booking.set_seats two53 cur)))))
  /\ (is_undefined thrower = false
      /\ handle (PUT_booking "1" {[ "seats"%string := thrower ]}) (init "t0")
         = (init "t0", Uncaught)).
Proof.
  intros create s cur thrower. split.
  - split; [apply reachable_serve|].
    repeat split; by vm_compute.
  - repeat split; by vm_compute.
Qed.

(** C3, amended.  Booking Update answers NotFound for an unknown id.
    When [seats] is supplied it answers InternalError if no event has
    the booking's stored [eventId]; otherwise, when [Number] throws on
    [seats], the handler ends with that exception; with [n] the coerced
    new value it answers CapacityExceeded exactly when the seats of the
    event's other bookings, added up in storage order as doubles, plus
    [n] exceed the capacity, and otherwise stores [n] as the booking's
    seats.  When the seats of the other bookings and [n] are whole
    numbers and their sum and the capacity lie below [2^53], this is
    exactly when the sum of the other bookings' seats plus [n] exceeds
    the capacity. *)
Theorem booking_update_checks s id_param update :
  let id := StringToNumber id_param in
  let req := PUT_booking id_param update in
  ((forall b, In b (bookings s) -> booking_has_id id b = false) ->
   handle req s = (s, NotFound_booking))
  /\ forall idx cur,
      findIndex (booking_has_id id) (bookings s) = Some idx ->
      bookings s !! idx = Some cur ->
      is_undefined (prop update "seats") = false ->
      (List.find (event_has_id (Booking.eventId cur)) (events s) = None ->
       handle req s = (s, InternalError_update))
      /\ forall ev,
          List.find (event_has_id (Booking.eventId cur)) (events s) = Some ev ->
          (Number (prop update "seats") = None -> handle req s = (s, Uncaught))
          /\ forall n, Number (prop update "seats") = Some n ->
          let others := other_bookings cur (bookings s) in
          (snd (handle req s) = CapacityExceeded_update
           <-> num_gt (num_add (seats_added others) n) (Event.capacity ev)
               = true)
          /\ (num_gt (num_add (seats_added others) n) (Event.capacity ev)
              = false ->
              exists b',
                handle req s
                = (mkState (events s) (<[idx := b']> (bookings s)),
                   Sent (mkResponse 200 (BookingBody b')))
                /\ Booking.seats b' = n
                /\ Booking.id b' = Booking.id cur
                /\ Booking.eventId b' = Booking.eventId cur)
          /\ (whole_seats others ->
              num_lt (total_seats others) two53 = true ->
              whole n = true ->
              num_lt (Event.capacity ev) two53 = true ->
              (snd (handle req s) = CapacityExceeded_update
               <-> num_gt (num_plus (total_seats others) n) (Event.capacity ev)
                   = true)).
Proof.
  intros id req. split; [apply put_booking_unknown|].
  intros idx cur Hidx Hcur Hseats.
  unfold req. rewrite (put_booking_found _ _ _ _ _ Hidx Hcur).
  cbv zeta. rewrite Hseats. split.
  - by intros ->.
  - intros ev ->. split; [by intros ->|].
    intros n ->. rewrite <- sum_seats_added. split; [|split].
    + destruct (num_gt _ (Event.capacity ev)); simpl; split; done.
    + intros ->.
      exists (apply_contact update (Booking.set_seats n cur)).
      by rewrite apply_contact_seats, apply_contact_id, apply_contact_eventId.
    + intros Hw Hlt Hn Hcap.
      rewrite <- (seats_check_exact _ _ _ Hw Hlt Hn Hcap).
      destruct (num_gt _ (Event.capacity ev)); simpl; split; done.
Qed.

Lemma booking_update_checks_witness :
  let update : gmap string value := {[ "seats"%string := JNum (num_of_Z 5) ]} in
  findIndex (booking_has_id (StringToNumber "1")) (bookings (init "t0")) = Some 0%nat
  /\ Booking.seats <$> (bookings (fst (handle (PUT_booking "1" update) (init "t0"))) !! 0%nat)
     = Some (num_of_Z 5)
  /\ (snd (handle (PUT_booking "1" update) (init "t0")) = CapacityExceeded_update
      <-> num_gt (num_plus (num_of_Z 0) (num_of_Z 5)) (num_of_Z 100) = true).
Proof.
  intros update. split; [by vm_compute|].
  destruct (booking_update_checks (init "t0") "1" update) as [_ H].
  destruct (H 0%nat (sample_booking "t0") ltac:(by vm_compute) eq_refl eq_refl)
    as [_ H'].
  destruct (H' sample_event eq_refl) as [_ H''].
  destruct (H'' (num_of_Z 5) eq_refl) as (_ & H1 & H2).
  split.
  - destruct H1 as (b' & -> & Hs & _); [by vm_compute|].
    simpl. by rewrite Hs.
  - apply H2; [|by vm_compute..]. by intros x [].
Defined.

(** C4.  When Booking Update rejects a seats change because the seats of
    the event's other bookings plus the new value exceed the capacity, it
    answers 400 and nothing stored changes: the booking keeps its seats
    and every other field. *)
Theorem booking_update_rejected_unchanged s id_param update idx cur ev n :
  findIndex (booking_has_id (StringToNumber id_param)) (bookings s) = Some idx ->
  bookings s !! idx = Some cur ->
  is_undefined (prop update "seats") = false ->
  List.find (event_has_id (Booking.eventId cur)) (events s) = Some ev ->
  Number (prop update "seats") = Some n ->
  num_gt (num_add (sum_seats (other_bookings cur (bookings s))) n)
    (Event.capacity ev) = true ->
  handle (PUT_booking id_param update) s
  = (s, Sent (mkResponse 400
                (ErrorBody "Not enough seats available for this update")))
  /\ bookings (fst (handle (PUT_booking id_param update) s)) !! idx = Some cur.
Proof.
  intros Hidx Hcur Hseats Hev Hn Hgt.
  rewrite (put_booking_found _ _ _ _ _ Hidx Hcur).
  cbv zeta. rewrite Hseats, Hev, Hn, Hgt. done.
Qed.

Lemma booking_update_rejected_unchanged_witness :
  let update : gmap string value :=
    {[ "seats"%string := JNum (num_of_Z 101) ]} in
  handle (PUT_booking "1" update) (init "t0")
  = (init "t0",
     Sent (mkResponse 400
             (ErrorBody "Not enough seats available for this update")))
  /\ Booking.seats <$> (bookings (fst (handle (PUT_booking "1" update) (init "t0"))) !! 0%nat)
     = Some (num_of_Z 1).
Proof.
  intros update.
  destruct (booking_update_rejected_unchanged (init "t0") "1" update 0%nat
              _ _ (num_of_Z 101) eq_refl eq_refl eq_refl eq_refl eq_refl eq_refl)
    as [H1 H2].
  split; [exact H1|]. by rewrite H2.
Defined.

(** C5 as stated fails: on the seed data, an update that carries a new
    name together with a seats value the event cannot take is answered
    400, and the stored name is not the one supplied. *)
Lemma booking_update_rejected_drops_name :
  let update : gmap string value :=
    {[ "name"%string := JStr "Bob"; "seats"%string := JNum (num_of_Z 1000) ]} in
  let s' := fst (handle (PUT_booking "1" update) (init "t0")) in
  findIndex (booking_has_id (StringToNumber "1")) (bookings (init "t0")) = Some 0%nat
  /\ prop update "name" = JStr "Bob"
  /\ snd (handle (PUT_booking "1" update) (init "t0")) = CapacityExceeded_update
  /\ Booking.name <$> (bookings s' !! 0%nat) = Some (JStr "Alice Kumar")
  /\ Booking.name <$> (bookings s' !! 0%nat) <> Some (prop update "name").
Proof. vm_compute. repeat split; congruence. Qed.

(** C5, amended.  On an existing booking, when the seats step lets the
    request through (no [seats] in the input, or a value that is coerced
    and fits), each of [name], [email], [phone] present in the input is
    stored verbatim and the absent ones keep their value; when the seats
    step does not let it through, nothing is stored at all. *)
Theorem booking_update_contact_fields s id_param update idx cur :
  let req := PUT_booking id_param update in
  findIndex (booking_has_id (StringToNumber id_param)) (bookings s) = Some idx ->
  bookings s !! idx = Some cur ->
  (seats_step_passes s cur update ->
   exists b',
     handle req s
     = (mkState (events s) (<[idx := b']> (bookings s)),
        Sent (mkResponse 200 (BookingBody b')))
     /\ forall k, In k ["name"; "email"; "phone"]%string ->
          contact k b'
          = if is_undefined (prop update k) then contact k cur
            else prop update k)
  /\ (~ seats_step_passes s cur update -> fst (handle req s) = s).
Proof.
  intros req Hidx Hcur. unfold req.
  rewrite (put_booking_found _ _ _ _ _ Hidx Hcur). cbv zeta.
  unfold seats_step_passes. split.
  - intros [Hu | (ev & n & Hev & Hn & Hgt)].
    + rewrite Hu. eexists; split; [done|].
      intros k Hk. by rewrite apply_contact_contact.
    + rewrite Hev, Hn, Hgt.
      destruct (is_undefined (prop update "seats"));
        (eexists; split; [done|]); intros k Hk;
        by rewrite apply_contact_contact.
  - intros Hno.
    destruct (is_undefined (prop update "seats")); [by destruct Hno; left|].
    destruct (List.find _ (events s)) as [ev|]; [|done].
    destruct (Number (prop update "seats")) as [n|]; [|done].
    destruct (num_gt _ (Event.capacity ev)) eqn:Hgt; [done|].
    destruct Hno. right. by exists ev, n.
Qed.

Lemma booking_update_contact_fields_witness :
  let update : gmap string value :=
    {[ "name"%string := JStr "Bob"; "seats"%string := JNum (num_of_Z 10) ]} in
  Booking.name <$> (bookings (fst (handle (PUT_booking "1" update) (init "t0"))) !! 0%nat)
  = Some (JStr "Bob").
Proof.
  intros update.
  destruct (booking_update_contact_fields (init "t0") "1" update 0%nat _
              eq_refl eq_refl) as [H _].
  destruct H as (b' & -> & Hk).
  - right. eexists _, _. repeat split; reflexivity.
  - simpl. f_equal. apply (Hk "name"%string). simpl; auto.
Defined.

(** ** Event deletion (C6) *)

(** C6.  On a reachable storage, Event Delete for the id of a stored
    event removes that event and no other, removes the bookings whose
    [eventId] equals the deleted id and keeps the others as they were,
    and returns the deleted event.  Afterwards GetById on that id
    answers NotFound and no booking refers to the id. *)
Theorem event_delete_cascades boot s id_param ev :
  let req := DELETE_event id_param in
  let s' := fst (handle req s) in
  reachable boot s ->
  In ev (events s) ->
  event_has_id (StringToNumber id_param) ev = true ->
  snd (handle req s)
  = Sent (mkResponse 200 (EventCancelled "Event cancelled" (Some ev)))
  /\ (exists evIndex,
        events s !! evIndex = Some ev
        /\ events s' = delete evIndex (events s))
  /\ ~ In ev (events s')
  /\ bookings s'
     = List.filter
         (fun b => negb (num_eq (Booking.eventId b) (num_of_Z (Event.id ev))))
         (bookings s)
  /\ snd (handle (GET_event id_param) s') = NotFound_event
  /\ forall b, In b (bookings s') ->
               num_eq (Booking.eventId b) (num_of_Z (Event.id ev)) = false.
Proof.
  intros req s' Hreach Hin Hid. subst req s'.
  destruct (reachable_well_formed _ _ Hreach) as (Hnd & _).
  destruct (findIndex_event _ _ _ Hnd Hin Hid) as (i & Hi & Hlk).
  rewrite (delete_event_found _ _ _ Hi). cbn [fst snd events bookings].
  assert (Hfilter :
    List.filter (booking_not_for (StringToNumber id_param)) (bookings s)
    = List.filter
        (fun b => negb (num_eq (Booking.eventId b) (num_of_Z (Event.id ev))))
        (bookings s)).
  { apply filter_ext. intros b. unfold booking_not_for.
    by rewrite (num_eq_compat _ _ (Booking.eventId b) Hid). }
  assert (Hgone : ~ In ev (delete i (events s))).
  { apply NoDup_delete_not_in; [|done]. by eapply NoDup_map_inv. }
  rewrite Hlk, Hfilter. repeat split.
  - by exists i.
  - done.
  - rewrite get_event_eq. cbn [snd events].
    destruct (List.find _ (delete i (events s))) as [x|] eqn:Hf; [|done].
    apply find_some in Hf as [Hx Hxid]. destruct Hgone.
    assert (x = ev) as <-; [|done].
    apply (NoDup_map_eq Event.id (events s)); try done.
    + by eapply In_delete.
    + by eapply same_event_id.
  - intros b [_ Hb]%filter_In. by apply negb_true_iff in Hb.
Qed.

Lemma event_delete_cascades_witness :
  let s' := fst (handle (DELETE_event "1") (init "t0")) in
  events s' = [] /\ bookings s' = []
  /\ snd (handle (GET_event "1") s') = NotFound_event.
Proof.
  intros s'. subst s'.
  destruct (event_delete_cascades "t0" (init "t0") "1" _
              (reachable_init "t0") (or_introl eq_refl) eq_refl)
    as (_ & (i & _ & Hev) & _ & Hbk & Hget & _).
  split; [|split].
  - rewrite Hev. by destruct i.
  - by rewrite Hbk.
  - exact Hget.
Defined.

(** ** Id assignment (C7) *)

(** C7 as stated fails in its last part: with events 1, 2, 3 stored,
    deleting 2 and then the highest-id event 3 and creating a new event
    hands out id 2, not the id 3 just freed. *)
Lemma highest_id_not_always_reused :
  let body : gmap string value :=
    {[ "title"%string := JStr "Workshop"; "date"%string := JStr "2026-01-15";
       "capacity"%string := JNum (num_of_Z 30) ]} in
  let s := serve [POST_events_add body; POST_events_add body; DELETE_event "2"]
             (init "t0") in
  let s1 := fst (handle (DELETE_event "3") s) in
  event_ids s = [1; 3]%Z
  /\ event_ids s1 = [1]%Z
  /\ exists e,
       snd (handle (POST_events_add body) s1)
       = Sent (mkResponse 201 (EventBody e))
       /\ Event.id e = 2%Z /\ Event.id e <> 3%Z.
Proof.
  vm_compute. split; [done|]. split; [done|].
  eexists. split; [reflexivity|]. done.
Qed.

(** C7, amended.  For events and for bookings the next id is the highest
    stored id plus one, or 1 for an empty collection; so a successful
    create returns an id above every stored id, which no stored record
    carries.  Once the record with the highest id has been deleted, the
    next create is given an id that is at most the freed one; it is the
    freed id exactly when the id just below it is stored, or when
    nothing is left and the freed id is 1. *)
Theorem id_assignment :
  nextId [] = 1%Z
  /\ (forall ids, ids <> [] ->
        exists m, In m ids /\ (forall i, In i ids -> (i <= m)%Z)
                  /\ nextId ids = (m + 1)%Z)
  /\ (forall s body e,
        snd (handle (POST_events_add body) s)
        = Sent (mkResponse 201 (EventBody e)) ->
        Event.id e = nextId (event_ids s)
        /\ (forall e0, In e0 (events s) -> (Event.id e0 < Event.id e)%Z)
        /\ ~ In (Event.id e) (event_ids s))
  /\ (forall s body now b,
        snd (handle (POST_bookings body now) s)
        = Sent (mkResponse 201 (BookingBody b)) ->
        Booking.id b = nextId (booking_ids s)
        /\ (forall b0, In b0 (bookings s) -> (Booking.id b0 < Booking.id b)%Z)
        /\ ~ In (Booking.id b) (booking_ids s))
  /\ (forall boot s id_param ev body e,
        reachable boot s ->
        In ev (events s) ->
        event_has_id (StringToNumber id_param) ev = true ->
        (forall e0, In e0 (events s) -> (Event.id e0 <= Event.id ev)%Z) ->
        snd (handle (POST_events_add body)
               (fst (handle (DELETE_event id_param) s)))
        = Sent (mkResponse 201 (EventBody e)) ->
        (Event.id e <= Event.id ev)%Z
        /\ (Event.id e = Event.id ev
            <-> (exists e0, In e0 (events s)
                            /\ Event.id e0 = (Event.id ev - 1)%Z)
                \/ (events s = [ev] /\ Event.id ev = 1%Z)))
  /\ (forall boot s id_param cur body now b,
        reachable boot s ->
        In cur (bookings s) ->
        booking_has_id (StringToNumber id_param) cur = true ->
        (forall b0, In b0 (bookings s) -> (Booking.id b0 <= Booking.id cur)%Z) ->
        snd (handle (POST_bookings body now)
               (fst (handle (DELETE_booking id_param) s)))
        = Sent (mkResponse 201 (BookingBody b)) ->
        (Booking.id b <= Booking.id cur)%Z
        /\ (Booking.id b = Booking.id cur
            <-> (exists b0, In b0 (bookings s)
                            /\ Booking.id b0 = (Booking.id cur - 1)%Z)
                \/ (bookings s = [cur] /\ Booking.id cur = 1%Z))).
Proof.
  split; [done|]. split; [apply nextId_max|]. split; [|split; [|split]].
  - intros s body e [-> _]%post_events_add_created.
    split; [done|]. split; [|apply nextId_fresh].
    intros e0 Hin. apply nextId_gt. by apply in_map.
  - intros s body now b [-> _]%post_bookings_created.
    split; [done|]. split; [|apply nextId_fresh].
    intros b0 Hin. apply nextId_gt. by apply in_map.
  - intros boot s id_param ev body e Hreach Hin Hid Hmax.
    destruct (reachable_well_formed _ _ Hreach) as (Hnd & _ & _ & Hpos & _).
    destruct (findIndex_event _ _ _ Hnd Hin Hid) as (i & Hi & Hlk).
    rewrite (delete_event_found _ _ _ Hi). cbn [fst].
    intros [-> _]%post_events_add_created.
    unfold event_ids at 1 2. cbn [events]. rewrite map_delete.
    destruct (nextId_after_delete_max (event_ids s) i (Event.id ev))
      as [Hle Hiff]; try done.
    { by apply map_lookup. }
    { intros j (e0 & <- & He0)%in_map_iff. by apply Hmax. }
    split; [done|]. rewrite Hiff. split.
    + intros [(e0 & He0 & Hin0)%in_map_iff|[Hone ->]].
      * left. by exists e0.
      * right. split; [|done]. by eapply map_singleton_inv.
    + intros [(e0 & Hin0 & He0)|[Hone H1]].
      * left. rewrite <- He0. by apply in_map.
      * right. split; [|done]. unfold event_ids. by rewrite Hone.
  - intros boot s id_param cur body now b Hreach Hin Hid Hmax.
    destruct (reachable_well_formed _ _ Hreach) as (_ & Hnd & _ & _ & Hpos).
    destruct (findIndex_booking _ _ _ Hnd Hin Hid) as (i & Hi & Hlk).
    rewrite (delete_booking_found _ _ _ Hi). cbn [fst].
    intros [-> _]%post_bookings_created.
    unfold booking_ids at 1 2. cbn [bookings]. rewrite map_delete.
    destruct (nextId_after_delete_max (booking_ids s) i (Booking.id cur))
      as [Hle Hiff]; try done.
    { by apply map_lookup. }
    { intros j (b0 & <- & Hb0)%in_map_iff. by apply Hmax. }
    split; [done|]. rewrite Hiff. split.
    + intros [(b0 & Hb0 & Hin0)%in_map_iff|[Hone ->]].
      * left. by exists b0.
      * right. split; [|done]. by eapply map_singleton_inv.
    + intros [(b0 & Hin0 & Hb0)|[Hone H1]].
      * left. rewrite <- Hb0. by apply in_map.
      * right. split; [|done]. unfold booking_ids. by rewrite Hone.
Qed.

Lemma id_assignment_witness :
  let body : gmap string value :=
    {[ "eventId"%string := JNum (num_of_Z 1); "name"%string := JStr "Ravi";
       "email"%string := JStr "ravi@example.com";
       "seats"%string := JNum (num_of_Z 2) ]} in
  let s1 := fst (handle (DELETE_booking "1") (init "t0")) in
  exists b,
    snd (handle (POST_bookings body "t1") s1)
    = Sent (mkResponse 201 (BookingBody b))
    /\ Booking.id b = 1%Z.
Proof.
  intros body s1. eexists. split; [reflexivity|].
  destruct id_assignment as (_ & _ & _ & _ & _ & H).
  edestruct (H "t0" (init "t0") "1" (sample_booking "t0") body "t1")
    as [_ Hiff].
  - apply reachable_init.
  - by left.
  - reflexivity.
  - intros b0 [<-|[]]. done.
  - reflexivity.
  - apply Hiff. right. by split.
Defined.

(** ** Seats that are not numbers (C8) *)

(** C8.  Inputs that are truthy and coerce to [NaN] include the strings
    that are not numeric literals, the plain objects and the arrays of
    two or more elements.  A sum with [NaN] is [NaN] and [NaN > capacity]
    is false.  So a booking creation or a seats update whose seats input
    is truthy and coerces to [NaN] is not rejected by the capacity check:
    it goes through and stores [NaN] as the seats value. *)
Theorem non_numeric_seats_bypass_capacity :
  ((forall s, StringToNumber s = NaN -> non_numeric (JStr s))
   /\ (forall props, has_own "toString" props = false ->
                     non_numeric (JObj props))
   /\ (forall x y items, forallb ToString_ok (x :: y :: items) = true ->
                         non_numeric (JArr (x :: y :: items))))
  /\ (forall booked capacity, num_gt (num_add booked NaN) capacity = false)
  /\ (forall s body now eid ev,
        truthy (prop body "eventId") = true ->
        truthy (prop body "name") = true ->
        truthy (prop body "email") = true ->
        non_numeric (prop body "seats") ->
        Number (prop body "eventId") = Some eid ->
        List.find (event_has_id eid) (events s) = Some ev ->
        exists b,
          handle (POST_bookings body now) s
          = (mkState (events s) (bookings s ++ [b]),
             Sent (mkResponse 201 (BookingBody b)))
          /\ Booking.seats b = NaN)
  /\ (forall s id_param update idx cur ev,
        findIndex (booking_has_id (StringToNumber id_param)) (bookings s)
        = Some idx ->
        bookings s !! idx = Some cur ->
        non_numeric (prop update "seats") ->
        List.find (event_has_id (Booking.eventId cur)) (events s) = Some ev ->
        exists b',
          handle (PUT_booking id_param update) s
          = (mkState (events s) (<[idx := b']> (bookings s)),
             Sent (mkResponse 200 (BookingBody b')))
          /\ Booking.seats b' = NaN).
Proof.
  split; [|split; [|split]].
  - split; [|split].
    + intros [|c s] H; [by vm_compute in H|]. split; [done|].
      simpl. by rewrite H.
    + intros props H. split; [done|]. simpl. by rewrite H.
    + intros x y items H. split; [done|].
      cbn [Number]. by rewrite H.
  - intros booked capacity. by rewrite num_add_NaN_r.
  - intros s body now eid ev H1 H2 H3 [H4 Hn] Heid Hev.
    rewrite (post_bookings_valid _ _ _ eid);
      [|by rewrite H1, H2, H3, H4|done].
    rewrite Hev, Hn, num_add_NaN_r, num_gt_NaN_l. cbv zeta.
    eexists; split; done.
  - intros s id_param update idx cur ev Hidx Hcur [Ht Hn] Hev.
    rewrite (put_booking_found _ _ _ _ _ Hidx Hcur). cbv zeta.
    rewrite (truthy_defined _ Ht), Hev, Hn, num_add_NaN_r, num_gt_NaN_l.
    eexists; split; [done|]. by rewrite apply_contact_seats.
Qed.

Lemma non_numeric_seats_bypass_capacity_witness :
  let body : gmap string value :=
    {[ "eventId"%string := JNum (num_of_Z 1); "name"%string := JStr "Ravi";
       "email"%string := JStr "ravi@example.com";
       "seats"%string := JStr "abc" ]} in
  non_numeric (prop body "seats")
  /\ Booking.seats
       <$> (bookings (fst (handle (POST_bookings body "t1") (init "t0"))) !! 1%nat)
     = Some NaN.
Proof.
  intros body.
  assert (non_numeric (prop body "seats")) as Hn by (split; reflexivity).
  split; [exact Hn|].
  destruct non_numeric_seats_bypass_capacity as (_ & _ & H & _).
  destruct (H (init "t0") body "t1" (num_of_Z 1) _
              eq_refl eq_refl eq_refl Hn eq_refl eq_refl) as (b & -> & Hb).
  simpl. by rewrite Hb.
Defined.

(** ** The seats field (C9) *)

(** C9 as stated fails: three Create calls and one Update, each accepted,
    leave bookings whose seats are zero, negative, fractional and not a
    number. *)
Lemma stored_seats_not_positive_integers :
  let create seats : gmap string value :=
    {[ "eventId"%string := JNum (num_of_Z 1); "name"%string := JStr "Ravi";
       "email"%string := JStr "ravi@example.com"; "seats"%string := seats ]} in
  let r1 := POST_bookings (create (JNum (num_of_Z (-5)))) "t1" in
  let r2 := POST_bookings (create (JNum (Fin (3 # 2)))) "t2" in
  let r3 := PUT_booking "1" {[ "seats"%string := JNum (num_of_Z 0) ]} in
  let r4 := POST_bookings (create (JStr "abc")) "t4" in
  let s1 := fst (handle r1 (init "t0")) in
  let s2 := fst (handle r2 s1) in
  let s3 := fst (handle r3 s2) in
  let s4 := fst (handle r4 s3) in
  exists b1 b2 b3 b4,
    snd (handle r1 (init "t0")) = Sent (mkResponse 201 (BookingBody b1))
    /\ snd (handle r2 s1) = Sent (mkResponse 201 (BookingBody b2))
    /\ snd (handle r3 s2) = Sent (mkResponse 200 (BookingBody b3))
    /\ snd (handle r4 s3) = Sent (mkResponse 201 (BookingBody b4))
    /\ bookings s4 = [b3; b1; b2; b4]
    /\ map Booking.seats (bookings s4)
       = [num_of_Z 0; num_of_Z (-5); Fin (3 # 2); NaN]
    /\ map (fun b => num_is_pos_int (Booking.seats b)) (bookings s4)
       = [false; false; false; false].
Proof.
  vm_compute. do 4 eexists. repeat split; reflexivity.
Qed.

Lemma seats_pos_int_step r s :
  seats_input_pos_int r ->
  (forall b, In b (bookings s) -> num_is_pos_int (Booking.seats b) = true) ->
  forall b, In b (bookings (fst (handle r s))) ->
            num_is_pos_int (Booking.seats b) = true.
Proof.
  intros Hr Hs.
  destruct (handle_effect r s)
    as [r|body cap _ _|id update i e _ _|id i e _ _
        |body now eid ev n _ _ _ Hn _|id update idx cur _ Hcur _
        |id update idx cur ev n _ Hcur Hu _ Hn _|id idx _];
    cbn [bookings]; try done.
  - intros b [Hin _]%filter_In. auto.
  - intros b [Hin|[<-|[]]]%in_app_iff; [auto|]. cbn [Booking.seats].
    by apply (Hr (prop body "seats")).
  - intros b [->|Hin]%In_insert; [|auto].
    rewrite apply_contact_seats. apply Hs. by eapply In_lookup.
  - intros b [->|Hin]%In_insert; [|auto].
    rewrite apply_contact_set_seats.
    apply (Hr (prop update "seats")); [|done]. simpl. by rewrite Hu.
  - intros b Hin%In_delete. auto.
Qed.

(** C9, amended.  The handlers never check that a seats value is a
    positive integer; they store the coerced input.  So every stored
    booking has a positive integer for seats provided every seats input
    of the requests served so far coerced to one. *)
Theorem stored_seats_follow_inputs boot rs :
  Forall seats_input_pos_int rs ->
  forall b, In b (bookings (serve rs (init boot))) ->
            num_is_pos_int (Booking.seats b) = true.
Proof.
  induction rs as [|r rs IH] using rev_ind; intros Hrs.
  - simpl. intros b [<-|[]]. done.
  - apply Forall_app in Hrs as [Hrs Hr]. apply Forall_inv in Hr.
    rewrite serve_snoc. apply seats_pos_int_step; auto.
Qed.

Lemma stored_seats_follow_inputs_witness :
  let body : gmap string value :=
    {[ "eventId"%string := JNum (num_of_Z 1); "name"%string := JStr "Ravi";
       "email"%string := JStr "ravi@example.com";
       "seats"%string := JStr "4" ]} in
  let s := serve [POST_bookings body "t1"] (init "t0") in
  map Booking.seats (bookings s) = [num_of_Z 1; num_of_Z 4]
  /\ forall b, In b (bookings s) -> num_is_pos_int (Booking.seats b) = true.
Proof.
  intros body s. split; [reflexivity|].
  apply (stored_seats_follow_inputs "t0" [POST_bookings body "t1"]).
  constructor; [|constructor].
  intros v n [= <-] [= <-]. reflexivity.
Defined.

(** ** Event update (C10) *)

(** C10.  Event Update with a [capacity] field stores the coerced value
    whatever the bookings are: the answer is 200 with the updated record.
    When the new capacity lies strictly below the seats booked for the
    event, the event is left with more seats booked than its capacity. *)
Theorem event_update_capacity_unchecked s id_param update evIndex ev c :
  let req := PUT_event id_param update in
  findIndex (event_has_id (StringToNumber id_param)) (events s) = Some evIndex ->
  events s !! evIndex = Some ev ->
  is_undefined (prop update "capacity") = false ->
  Number (prop update "capacity") = Some c ->
  exists ev',
    handle req s
    = (mkState (<[evIndex := ev']> (events s)) (bookings s),
       Sent (mkResponse 200 (EventBody ev')))
    /\ Event.id ev' = Event.id ev
    /\ Event.capacity ev' = c
    /\ (num_lt c (seats_booked s (num_of_Z (Event.id ev))) = true ->
        num_gt (seats_booked (fst (handle req s)) (num_of_Z (Event.id ev')))
          (Event.capacity ev') = true
        /\ within_capacity (fst (handle req s)) ev' = false).
Proof.
  intros req Hidx Hev Hu Hc. unfold req.
  rewrite (put_event_found _ _ _ _ _ Hidx Hev).
  destruct (assign_all_capacity update ev c Hu Hc) as [-> Hcap].
  eexists; split; [done|].
  rewrite assign_all_id, Hcap. split; [done|]. split; [done|].
  unfold num_lt. intros Hlt. cbn [fst].
  unfold within_capacity. rewrite assign_all_id, Hcap.
  unfold seats_booked in *. cbn [bookings].
  split; [done|]. by apply num_gt_not_le.
Qed.

Lemma event_update_capacity_unchecked_witness :
  let update : gmap string value := {[ "capacity"%string := JNum (num_of_Z 0) ]} in
  let s' := fst (handle (PUT_event "1" update) (init "t0")) in
  Event.capacity <$> (events s' !! 0%nat) = Some (num_of_Z 0)
  /\ seats_booked s' (num_of_Z 1) = num_of_Z 1.
Proof.
  intros update s'. subst s'.
  destruct (event_update_capacity_unchecked (init "t0") "1" update 0%nat _
              (num_of_Z 0) eq_refl eq_refl eq_refl eq_refl)
    as (ev' & -> & _ & Hc & _).
  simpl. by rewrite Hc.
Defined.

(** * Further properties of the handlers *)

(** ** Creating an event and reading it back *)

Lemma find_snoc_fresh {A} (p : A -> bool) (l : list A) x :
  (forall y, In y l -> p y = false) -> p x = true ->
  List.find p (l ++ [x]) = Some x.
Proof.
  intros Hl Hx. induction l as [|a l IH]; simpl.
  - by rewrite Hx.
  - rewrite (Hl a) by (by left). apply IH. intros y Hy. apply Hl. by right.
Qed.

(** X1.  Event Create answers 400 exactly when [title], [date] or
    [capacity] is missing or falsy, and then stores nothing; otherwise,
    with [cap] the coerced capacity, it appends an event that carries the
    next id, the given title and date, [cap], and the description and
    location given or the empty string, and answers 201 with it. *)
Theorem event_create_checks s body :
  let req := POST_events_add body in
  (snd (handle req s) = ValidationError_event
   <-> truthy (prop body "title") = false \/ truthy (prop body "date") = false
       \/ truthy (prop body "capacity") = false)
  /\ (snd (handle req s) = ValidationError_event -> fst (handle req s) = s)
  /\ (truthy (prop body "title") = true ->
      truthy (prop body "date") = true ->
      truthy (prop body "capacity") = true ->
      forall cap, Number (prop body "capacity") = Some cap ->
      let e :=
        Event.mk (nextId (event_ids s)) (prop body "title")
          (if truthy (prop body "description") then prop body "description"
           else JStr "")
          (prop body "date") cap
          (if truthy (prop body "location") then prop body "location"
           else JStr "") in
      handle req s
      = (mkState (events s ++ [e]) (bookings s),
         Sent (mkResponse 201 (EventBody e)))).
Proof.
  intros req. unfold req. rewrite post_events_add_eq.
  destruct (truthy (prop body "title")), (truthy (prop body "date")),
    (truthy (prop body "capacity")); cbn [negb orb];
    try (split; [split; [by auto|done]|split; done]).
  split; [|split].
  - split; [|by intros [|[|]]].
    by destruct (Number (prop body "capacity")).
  - by destruct (Number (prop body "capacity")).
  - intros _ _ _ cap ->. done.
Qed.

Lemma event_create_checks_witness :
  let body : gmap string value :=
    {[ "title"%string := JStr "Workshop"; "date"%string := JStr "2026-01-15";
       "capacity"%string := JStr "30" ]} in
  let e :=
    Event.mk 2 (JStr "Workshop") (JStr "") (JStr "2026-01-15") (num_of_Z 30)
      (JStr "") in
  handle (POST_events_add body) (init "t0")
  = (mkState [sample_event; e] [sample_booking "t0"],
     Sent (mkResponse 201 (EventBody e))).
Proof.
  intros body e.
  destruct (event_create_checks (init "t0") body) as (_ & _ & H).
  exact (H eq_refl eq_refl eq_refl (num_of_Z 30) eq_refl).
Defined.

(** X2.  An event that was created is read back: after a successful
    Event Create, GetById with a path segment that denotes the new id
    answers 200 with the very record the create returned, and List ends
    with it. *)
Theorem event_create_then_get s body e id_param :
  let s' := fst (handle (POST_events_add body) s) in
  snd (handle (POST_events_add body) s) = Sent (mkResponse 201 (EventBody e)) ->
  event_has_id (StringToNumber id_param) e = true ->
  handle (GET_event id_param) s' = (s', Sent (mkResponse 200 (EventBody e)))
  /\ handle GET_events s'
     = (s', Sent (mkResponse 200 (EventList (events s ++ [e])))).
Proof.
  intros s' Hcreate Hid. subst s'.
  destruct (post_events_add_created _ _ _ Hcreate) as [Hnew ->].
  split; [|done].
  rewrite get_event_eq. cbn [events].
  rewrite find_snoc_fresh; [done| |done].
  intros y Hy. destruct (event_has_id (StringToNumber id_param) y) eqn:E; [|done].
  pose proof (same_event_id _ _ _ E Hid) as Heq.
  destruct (nextId_fresh (event_ids s)). rewrite <- Hnew, <- Heq.
  by apply in_map.
Qed.

Lemma event_create_then_get_witness :
  let body : gmap string value :=
    {[ "title"%string := JStr "Workshop"; "date"%string := JStr "2026-01-15";
       "capacity"%string := JNum (num_of_Z 30) ]} in
  let s' := fst (handle (POST_events_add body) (init "t0")) in
  exists e, handle (GET_event "2") s' = (s', Sent (mkResponse 200 (EventBody e)))
            /\ Event.id e = 2%Z.
Proof.
  intros body s'. eexists. split.
  - refine (proj1 (event_create_then_get (init "t0") body _ "2" _ _));
      reflexivity.
  - reflexivity.
Defined.

(** X3.  A booking that was created is read back: after a successful
    Booking Create, GetById with a path segment that denotes the new id
    answers 200 with the very record the create returned, and List ends
    with it. *)
Theorem booking_create_then_get s body now b id_param :
  let s' := fst (handle (POST_bookings body now) s) in
  snd (handle (POST_bookings body now) s)
  = Sent (mkResponse 201 (BookingBody b)) ->
  booking_has_id (StringToNumber id_param) b = true ->
  handle (GET_booking id_param) s' = (s', Sent (mkResponse 200 (BookingBody b)))
  /\ handle GET_bookings s'
     = (s', Sent (mkResponse 200 (BookingList (bookings s ++ [b])))).
Proof.
  intros s' Hcreate Hid. subst s'.
  destruct (post_bookings_created _ _ _ _ Hcreate) as [Hnew ->].
  split; [|done].
  rewrite get_booking_eq. cbn [bookings].
  rewrite find_snoc_fresh; [done| |done].
  intros y Hy. destruct (booking_has_id (StringToNumber id_param) y) eqn:E; [|done].
  pose proof (same_booking_id _ _ _ E Hid) as Heq.
  destruct (nextId_fresh (booking_ids s)). rewrite <- Hnew, <- Heq.
  by apply in_map.
Qed.

Lemma booking_create_then_get_witness :
  let body : gmap string value :=
    {[ "eventId"%string := JNum (num_of_Z 1); "name"%string := JStr "Ravi";
       "email"%string := JStr "ravi@example.com";
       "seats"%string := JNum (num_of_Z 2) ]} in
  let s' := fst (handle (POST_bookings body "t1") (init "t0")) in
  exists b,
    handle (GET_booking "2") s' = (s', Sent (mkResponse 200 (BookingBody b)))
    /\ Booking.id b = 2%Z /\ Booking.createdAt b = "t1"%string.
Proof.
  intros body s'.
  exists (Booking.mk 2 (num_of_Z 1) (JStr "Ravi") (JStr "ravi@example.com")
            (JStr "") (num_of_Z 2) "t1").
  split; [|done].
  exact (proj1 (booking_create_then_get (init "t0") body "t1" _ "2"
                  ltac:(by vm_compute) ltac:(by vm_compute))).
Defined.

(** ** Cancelling a booking *)

(** X4.  On a reachable storage, Booking Delete for the id of a stored
    booking removes that booking and no other, leaves the events alone
    and returns the deleted booking; afterwards GetById and a second
    Delete on that id answer NotFound. *)
Theorem booking_delete_removes boot s id_param cur :
  let req := DELETE_booking id_param in
  let s' := fst (handle req s) in
  reachable boot s ->
  In cur (bookings s) ->
  booking_has_id (StringToNumber id_param) cur = true ->
  snd (handle req s)
  = Sent (mkResponse 200 (BookingCancelled "Booking cancelled" (Some cur)))
  /\ (exists idx,
        bookings s !! idx = Some cur
        /\ bookings s' = delete idx (bookings s))
  /\ events s' = events s
  /\ ~ In cur (bookings s')
  /\ snd (handle (GET_booking id_param) s') = NotFound_booking
  /\ handle req s' = (s', NotFound_booking).
Proof.
  intros req s' Hreach Hin Hid. subst req s'.
  destruct (reachable_well_formed _ _ Hreach) as (_ & Hnd & _).
  destruct (findIndex_booking _ _ _ Hnd Hin Hid) as (i & Hi & Hlk).
  rewrite (delete_booking_found _ _ _ Hi). cbn [fst snd events bookings].
  assert (Hgone : ~ In cur (delete i (bookings s))).
  { apply NoDup_delete_not_in; [|done]. by eapply NoDup_map_inv. }
  assert (Hnone : forall x, In x (delete i (bookings s)) ->
                    booking_has_id (StringToNumber id_param) x = false).
  { intros x Hx.
    destruct (booking_has_id (StringToNumber id_param) x) eqn:E; [|done].
    destruct Hgone. assert (x = cur) as <-; [|done].
    apply (NoDup_map_eq Booking.id (bookings s)); try done.
    - by eapply In_delete.
    - by eapply same_booking_id. }
  rewrite Hlk. repeat split; try done.
  - by exists i.
  - rewrite get_booking_eq. cbn [snd bookings].
    by rewrite (proj2 (find_none_iff _ _) Hnone).
  - rewrite delete_booking_unknown; [done|]. cbn [bookings].
    by apply findIndex_none_of.
Qed.

Lemma booking_delete_removes_witness :
  let s' := fst (handle (DELETE_booking "1") (init "t0")) in
  bookings s' = [] /\ events s' = [sample_event]
  /\ snd (handle (GET_booking "1") s') = NotFound_booking.
Proof.
  intros s'. subst s'.
  destruct (booking_delete_removes "t0" (init "t0") "1" (sample_booking "t0")
              (reachable_init "t0") (or_introl eq_refl) eq_refl)
    as (_ & (i & _ & Hb) & He & _ & Hget & _).
  split; [|split].
  - rewrite Hb. by destruct i.
  - exact He.
  - exact Hget.
Defined.

(** ** What every reachable storage looks like *)

(** X5.  Whatever requests were served, event ids are pairwise distinct,
    booking ids are pairwise distinct, all ids are at least 1, and every
    stored booking refers to a stored event: deleting an event takes its
    bookings with it, so no booking is left behind. *)
Theorem reachable_storage_invariants boot s :
  reachable boot s ->
  List.NoDup (map Event.id (events s))
  /\ List.NoDup (map Booking.id (bookings s))
  /\ (forall e, In e (events s) -> (1 <= Event.id e)%Z)
  /\ (forall b, In b (bookings s) -> (1 <= Booking.id b)%Z)
  /\ (forall b, In b (bookings s) ->
        exists e, In e (events s)
                  /\ event_has_id (Booking.eventId b) e = true).
Proof.
  intros (He & Hb & Href & Hep & Hbp)%reachable_well_formed.
  repeat split; try done.
  - intros e Hin. apply Hep. by apply in_map.
  - intros b Hin. apply Hbp. by apply in_map.
  - intros b Hin. destruct (Href b Hin) as (i & (e & <- & He')%in_map_iff & Hi).
    by exists e.
Qed.

Lemma reachable_storage_invariants_witness :
  let body : gmap string value :=
    {[ "title"%string := JStr "Workshop"; "date"%string := JStr "2026-01-15";
       "capacity"%string := JNum (num_of_Z 30) ]} in
  let s := serve [POST_events_add body; DELETE_event "1"] (init "t0") in
  map Event.id (events s) = [2%Z] /\ bookings s = []
  /\ List.NoDup (map Event.id (events s)).
Proof.
  intros body s. split; [reflexivity|]. split; [reflexivity|].
  exact (proj1 (reachable_storage_invariants "t0" s
                  (reachable_serve "t0" [POST_events_add body; DELETE_event "1"]))).
Defined.

(** X6.  On a reachable storage the update of a booking never answers
    500 'Associated event missing': the event a stored booking refers to
    is always found, so the branch for a missing event is not taken. *)
Theorem booking_update_never_orphaned boot s id_param update :
  reachable boot s ->
  snd (handle (PUT_booking id_param update) s) <> InternalError_update.
Proof.
  intros (_ & _ & Href & _)%reachable_well_formed.
  destruct (findIndex (booking_has_id (StringToNumber id_param)) (bookings s))
    as [idx|] eqn:Hidx.
  - destruct (findIndex_Some _ _ _ Hidx) as (cur & Hcur & _).
    rewrite (put_booking_found _ _ _ _ _ Hidx Hcur). cbv zeta.
    destruct (is_undefined (prop update "seats")); [done|].
    destruct (List.find _ (events s)) as [ev|] eqn:Hev.
    + destruct (Number (prop update "seats")); [|done].
      by destruct (num_gt _ _).
    + destruct (Href cur (In_lookup _ _ _ Hcur))
        as (i & (e & <- & He)%in_map_iff & Hi).
      pose proof (proj1 (find_none_iff _ _) Hev e He) as Hno.
      unfold event_has_id in Hno. congruence.
  - rewrite put_booking_unknown; [done|].
    apply find_none_iff. by apply findIndex_None.
Qed.

Lemma booking_update_never_orphaned_witness :
  let body : gmap string value :=
    {[ "title"%string := JStr "Workshop"; "date"%string := JStr "2026-01-15";
       "capacity"%string := JNum (num_of_Z 30) ]} in
  let s := serve [POST_events_add body; DELETE_event "2"] (init "t0") in
  let update : gmap string value := {[ "seats"%string := JNum (num_of_Z 3) ]} in
  findIndex (booking_has_id (StringToNumber "1")) (bookings s) = Some 0%nat
  /\ is_undefined (prop update "seats") = false
  /\ snd (handle (PUT_booking "1" update) s) <> InternalError_update.
Proof.
  intros body s update. split; [by vm_compute|]. split; [done|].
  exact (booking_update_never_orphaned "t0" s "1" update
           (reachable_serve "t0" [POST_events_add body; DELETE_event "2"])).
Defined.

(** ** Failing requests *)

Lemma num_eq_NaN_r a : num_eq a NaN = false.
Proof. by destruct a. Qed.

(** X7.  A path segment that does not denote a number finds nothing: the
    six by-id handlers answer 404 and leave the storage as it is. *)
Theorem non_numeric_id_not_found s id_param update :
  StringToNumber id_param = NaN ->
  handle (GET_event id_param) s = (s, NotFound_event)
  /\ handle (PUT_event id_param update) s = (s, NotFound_event)
  /\ handle (DELETE_event id_param) s = (s, NotFound_event)
  /\ handle (GET_booking id_param) s = (s, NotFound_booking)
  /\ handle (PUT_booking id_param update) s = (s, NotFound_booking)
  /\ handle (DELETE_booking id_param) s = (s, NotFound_booking).
Proof.
  intros Hnan.
  assert (He : forall e, In e (events s) ->
                 event_has_id (StringToNumber id_param) e = false).
  { intros e _. unfold event_has_id. rewrite Hnan. apply num_eq_NaN_r. }
  assert (Hb : forall b, In b (bookings s) ->
                 booking_has_id (StringToNumber id_param) b = false).
  { intros b _. unfold booking_has_id. rewrite Hnan. apply num_eq_NaN_r. }
  repeat split.
  - rewrite get_event_eq. by rewrite (proj2 (find_none_iff _ _) He).
  - apply put_event_unknown. by apply findIndex_none_of.
  - apply delete_event_unknown. by apply findIndex_none_of.
  - rewrite get_booking_eq. by rewrite (proj2 (find_none_iff _ _) Hb).
  - by apply put_booking_unknown.
  - apply delete_booking_unknown. by apply findIndex_none_of.
Qed.

Lemma non_numeric_id_not_found_witness :
  handle (DELETE_event "first") (init "t0") = (init "t0", NotFound_event)
  /\ handle (GET_booking "1a") (init "t0") = (init "t0", NotFound_booking).
Proof.
  split.
  - exact (proj1 (proj2 (proj2
             (non_numeric_id_not_found (init "t0") "first" ∅ eq_refl)))).
  - exact (proj1 (proj2 (proj2 (proj2
             (non_numeric_id_not_found (init "t0") "1a" ∅ eq_refl))))).
Defined.

(** X8.  A request answered with an error status (400 and above) has
    stored nothing: the storage is the one the request found. *)
Theorem error_leaves_storage r s resp :
  snd (handle r s) = Sent resp ->
  (400 <= status resp)%nat ->
  fst (handle r s) = s.
Proof.
  destruct r as [|body|id|id update|id| |body now|id|id update|id].
  - done.
  - rewrite post_events_add_eq. destruct (_ || _); [done|].
    destruct (Number (prop body "capacity")); [|done].
    cbv zeta. cbn [fst snd]. intros [= <-]. simpl. lia.
  - by rewrite get_event_eq.
  - destruct (findIndex (event_has_id (StringToNumber id)) (events s))
      as [i|] eqn:Hi.
    + destruct (findIndex_Some _ _ _ Hi) as (e & Hlk & _).
      rewrite (put_event_found _ _ _ _ _ Hi Hlk). cbn [fst snd].
      destruct (snd (assign_all update allowed e)); [|done].
      intros [= <-]. simpl. lia.
    + by rewrite put_event_unknown.
  - destruct (findIndex (event_has_id (StringToNumber id)) (events s))
      as [i|] eqn:Hi.
    + rewrite (delete_event_found _ _ _ Hi). cbn [fst snd].
      intros [= <-]. simpl. lia.
    + by rewrite delete_event_unknown.
  - done.
  - destruct (truthy (prop body "eventId") && truthy (prop body "name")
              && truthy (prop body "email") && truthy (prop body "seats"))
      eqn:Ht.
    + destruct (Number (prop body "eventId")) as [eid|] eqn:Heid.
      * rewrite (post_bookings_valid _ _ _ _ Ht Heid).
        destruct (List.find _ (events s)); [|done].
        destruct (Number (prop body "seats")); [|done].
        destruct (num_gt _ _); [done|].
        cbv zeta. cbn [fst snd]. intros [= <-]. simpl. lia.
      * by rewrite (post_bookings_throwing _ _ _ Ht Heid).
    + by rewrite (post_bookings_invalid _ _ _ Ht).
  - by rewrite get_booking_eq.
  - destruct (findIndex (booking_has_id (StringToNumber id)) (bookings s))
      as [idx|] eqn:Hidx.
    + destruct (findIndex_Some _ _ _ Hidx) as (cur & Hcur & _).
      rewrite (put_booking_found _ _ _ _ _ Hidx Hcur). cbv zeta.
      destruct (is_undefined (prop update "seats")).
      { cbn [fst snd]. intros [= <-]. simpl. lia. }
      destruct (List.find _ (events s)); [|done].
      destruct (Number (prop update "seats")); [|done].
      destruct (num_gt _ _); [done|].
      cbn [fst snd]. intros [= <-]. simpl. lia.
    + rewrite put_booking_unknown; [done|].
      apply find_none_iff. by apply findIndex_None.
  - destruct (findIndex (booking_has_id (StringToNumber id)) (bookings s))
      as [i|] eqn:Hi.
    + rewrite (delete_booking_found _ _ _ Hi). cbn [fst snd].
      intros [= <-]. simpl. lia.
    + by rewrite delete_booking_unknown.
Qed.

Lemma error_leaves_storage_witness :
  let body : gmap string value := {[ "title"%string := JStr "Workshop" ]} in
  fst (handle (POST_events_add body) (init "t0")) = init "t0".
Proof.
  intros body.
  apply (error_leaves_storage (POST_events_add body) (init "t0")
           (mkResponse 400 (ErrorBody "title, date and capacity are required"))).
  - reflexivity.
  - simpl. lia.
Defined.

(** ** Updating an event *)

Lemma assign_all_coerced update e c :
  Number (prop update "capacity") = Some c ->
  assign_all update allowed e
  = (Event.mk (Event.id e)
       (updated update "title" (Event.title e))
       (updated update "description" (Event.description e))
       (updated update "date" (Event.date e))
       (if is_undefined (prop update "capacity") then Event.capacity e else c)
       (updated update "location" (Event.location e)),
     true).
Proof.
  intros Hc. unfold allowed, updated. simpl. unfold Event.assign. simpl.
  rewrite Hc. simpl. destruct e.
  by allowed_cases update; destruct (is_undefined (prop update "capacity")).
Qed.

Lemma assign_all_thrown update e :
  Number (prop update "capacity") = None ->
  assign_all update allowed e
  = (Event.mk (Event.id e)
       (updated update "title" (Event.title e))
       (updated update "description" (Event.description e))
       (updated update "date" (Event.date e))
       (Event.capacity e) (Event.location e),
     false).
Proof.
  intros Hc. unfold allowed, updated. simpl. unfold Event.assign. simpl.
  rewrite Hc. simpl.
  assert (is_undefined (prop update "capacity") = false) as ->.
  { by destruct (prop update "capacity"). }
  destruct e.
  by destruct (is_undefined (prop update "title")),
    (is_undefined (prop update "description")),
    (is_undefined (prop update "date")).
Qed.

(** X9.  Event Update on a stored event, with a capacity that coerces
    (or none): the answer is 200 with the updated record, in which
    [title], [description], [date] and [location] are the values supplied
    or else the old ones, [capacity] is the coerced value if one was
    supplied, and the id is the old id whatever the body says.  The
    record keeps its place, the other events and all bookings stay as
    they were. *)
Theorem event_update_fields s id_param update evIndex ev c :
  findIndex (event_has_id (StringToNumber id_param)) (events s) = Some evIndex ->
  events s !! evIndex = Some ev ->
  Number (prop update "capacity") = Some c ->
  let ev' :=
    Event.mk (Event.id ev)
      (updated update "title" (Event.title ev))
      (updated update "description" (Event.description ev))
      (updated update "date" (Event.date ev))
      (if is_undefined (prop update "capacity") then Event.capacity ev else c)
      (updated update "location" (Event.location ev)) in
  handle (PUT_event id_param update) s
  = (mkState (<[evIndex := ev']> (events s)) (bookings s),
     Sent (mkResponse 200 (EventBody ev'))).
Proof.
  intros Hidx Hev Hc ev'.
  rewrite (put_event_found _ _ _ _ _ Hidx Hev).
  by rewrite (assign_all_coerced _ _ _ Hc).
Qed.

Lemma event_update_fields_witness :
  let update : gmap string value :=
    {[ "id"%string := JNum (num_of_Z 7); "title"%string := JStr "Tech Talk II";
       "capacity"%string := JStr "120" ]} in
  handle (PUT_event "1" update) (init "t0")
  = (mkState
       [Event.mk 1 (JStr "Tech Talk II")
          (JStr "A tech talk on fullstack development") (JStr "2025-12-10")
          (num_of_Z 120) (JStr "Main Auditorium")]
       [sample_booking "t0"],
     Sent (mkResponse 200
             (EventBody
                (Event.mk 1 (JStr "Tech Talk II")
                   (JStr "A tech talk on fullstack development")
                   (JStr "2025-12-10") (num_of_Z 120)
                   (JStr "Main Auditorium"))))).
Proof.
  intros update.
  exact (event_update_fields (init "t0") "1" update 0%nat sample_event
           (num_of_Z 120) eq_refl eq_refl eq_refl).
Defined.

(** X10.  Event Update is not all-or-nothing.  When the capacity supplied
    makes [Number] throw, the handler ends without an answer of its own,
    and the [title], [description] and [date] it had already assigned
    stay stored, while capacity and location keep their old values. *)
Theorem event_update_interrupted s id_param update evIndex ev :
  findIndex (event_has_id (StringToNumber id_param)) (events s) = Some evIndex ->
  events s !! evIndex = Some ev ->
  Number (prop update "capacity") = None ->
  handle (PUT_event id_param update) s
  = (mkState
       (<[evIndex :=
            Event.mk (Event.id ev)
              (updated update "title" (Event.title ev))
              (updated update "description" (Event.description ev))
              (updated update "date" (Event.date ev))
              (Event.capacity ev) (Event.location ev)]> (events s))
       (bookings s),
     Uncaught).
Proof.
  intros Hidx Hev Hc.
  rewrite (put_event_found _ _ _ _ _ Hidx Hev).
  by rewrite (assign_all_thrown _ _ Hc).
Qed.

Lemma event_update_interrupted_witness :
  let update : gmap string value :=
    {[ "title"%string := JStr "Tech Talk II";
       "capacity"%string := JObj [("toString"%string, JNull)];
       "location"%string := JStr "Room 2" ]} in
  let s' := fst (handle (PUT_event "1" update) (init "t0")) in
  snd (handle (PUT_event "1" update) (init "t0")) = Uncaught
  /\ map Event.title (events s') = [JStr "Tech Talk II"]
  /\ map Event.location (events s') = [JStr "Main Auditorium"].
Proof.
  intros update s'. subst s'.
  rewrite (event_update_interrupted (init "t0") "1" update 0%nat sample_event
             eq_refl eq_refl eq_refl).
  repeat split.
Defined.

(** X11.  An Event Update that carries none of the five properties it
    knows, and a Booking Update that carries none of [seats], [name],
    [email], [phone], answer 200 with the stored record and change
    nothing. *)
Theorem update_without_fields s id_param update :
  ((forall k, In k allowed -> is_undefined (prop update k) = true) ->
   forall evIndex ev,
     findIndex (event_has_id (StringToNumber id_param)) (events s)
     = Some evIndex ->
     events s !! evIndex = Some ev ->
     handle (PUT_event id_param update) s
     = (s, Sent (mkResponse 200 (EventBody ev))))
  /\ ((forall k, In k ["seats"; "name"; "email"; "phone"]%string ->
                 is_undefined (prop update k) = true) ->
      forall idx cur,
        findIndex (booking_has_id (StringToNumber id_param)) (bookings s)
        = Some idx ->
        bookings s !! idx = Some cur ->
        handle (PUT_booking id_param update) s
        = (s, Sent (mkResponse 200 (BookingBody cur)))).
Proof.
  split.
  - intros Hk evIndex ev Hidx Hev.
    rewrite (put_event_found _ _ _ _ _ Hidx Hev).
    unfold allowed in *. simpl.
    rewrite !Hk by (simpl; auto 10). simpl.
    rewrite list_insert_id by done. by destruct s.
  - intros Hk idx cur Hidx Hcur.
    rewrite (put_booking_found _ _ _ _ _ Hidx Hcur). cbv zeta.
    unfold apply_contact. simpl.
    rewrite !Hk by (simpl; auto 10).
    rewrite list_insert_id by done. by destruct s.
Qed.

Lemma update_without_fields_witness :
  handle (PUT_booking "1" ∅) (init "t0")
  = (init "t0", Sent (mkResponse 200 (BookingBody (sample_booking "t0")))).
Proof.
  refine (proj2 (update_without_fields (init "t0") "1" ∅) _ 0%nat _ eq_refl eq_refl).
  intros k _. reflexivity.
Defined.

(** ** Updating a booking *)

Lemma apply_contact_createdAt update b :
  Booking.createdAt (apply_contact update b) = Booking.createdAt b.
Proof. unfold apply_contact; simpl. by contact_cases update. Qed.

(** X12.  Booking Update, whatever its outcome, never touches the
    events, never changes the number or the order of the bookings, nor
    the [id], [eventId] or [createdAt] of any booking; and a booking
    whose id is not the one in the path stays exactly as it was. *)
Theorem booking_update_preserves s id_param update :
  let s' := fst (handle (PUT_booking id_param update) s) in
  events s' = events s
  /\ map Booking.id (bookings s') = map Booking.id (bookings s)
  /\ map Booking.eventId (bookings s') = map Booking.eventId (bookings s)
  /\ map Booking.createdAt (bookings s') = map Booking.createdAt (bookings s)
  /\ forall j b,
       bookings s !! j = Some b ->
       booking_has_id (StringToNumber id_param) b = false ->
       bookings s' !! j = Some b.
Proof.
  intros s'. subst s'.
  destruct (findIndex (booking_has_id (StringToNumber id_param)) (bookings s))
    as [idx|] eqn:Hidx.
  - destruct (findIndex_Some _ _ _ Hidx) as (cur & Hcur & Hid & _).
    assert (Hfin : forall seated,
      Booking.id seated = Booking.id cur ->
      Booking.eventId seated = Booking.eventId cur ->
      Booking.createdAt seated = Booking.createdAt cur ->
      let l' := <[idx := apply_contact update seated]> (bookings s) in
      map Booking.id l' = map Booking.id (bookings s)
      /\ map Booking.eventId l' = map Booking.eventId (bookings s)
      /\ map Booking.createdAt l' = map Booking.createdAt (bookings s)
      /\ forall j b,
           bookings s !! j = Some b ->
           booking_has_id (StringToNumber id_param) b = false ->
           l' !! j = Some b).
    { intros seated H1 H2 H3 l'. subst l'.
      rewrite !(map_insert_same _ _ _ cur)
        by (done || by rewrite ?apply_contact_id, ?apply_contact_eventId,
                         ?apply_contact_createdAt).
      repeat split; try done.
      intros j b Hj Hb. rewrite list_lookup_insert_ne; [done|].
      intros <-. congruence. }
    rewrite (put_booking_found _ _ _ _ _ Hidx Hcur). cbv zeta.
    destruct (is_undefined (prop update "seats")).
    { cbn [fst events bookings]. split; [done|]. by apply Hfin. }
    destruct (List.find _ (events s)); [|done].
    destruct (Number (prop update "seats")); [|done].
    destruct (num_gt _ _); [done|].
    cbn [fst events bookings]. split; [done|]. by apply Hfin.
  - rewrite put_booking_unknown; [done|].
    apply find_none_iff. by apply findIndex_None.
Qed.

Lemma booking_update_preserves_witness :
  let create : gmap string value :=
    {[ "eventId"%string := JNum (num_of_Z 1); "name"%string := JStr "Ravi";
       "email"%string := JStr "ravi@example.com";
       "seats"%string := JNum (num_of_Z 2) ]} in
  let s := fst (handle (POST_bookings create "t1") (init "t0")) in
  let update : gmap string value :=
    {[ "seats"%string := JNum (num_of_Z 5); "name"%string := JStr "R." ]} in
  bookings (fst (handle (PUT_booking "2" update) s)) !! 0%nat
  = Some (sample_booking "t0").
Proof.
  intros create s update.
  destruct (booking_update_preserves s "2" update) as (_ & _ & _ & _ & H).
  apply H; reflexivity.
Defined.

(** ** Ids follow the order of insertion *)

Lemma ascending_snoc l x :
  ascending l -> (forall i, In i l -> (i < x)%Z) -> ascending (l ++ [x]).
Proof.
  induction l as [|a l IH]; simpl.
  - intros _ _. split; [constructor|done].
  - intros [Ha Hl] Hx. split.
    + apply Forall_app. split; [done|]. constructor; [|constructor].
      apply Hx. by left.
    + apply IH; [done|]. intros i Hi. apply Hx. by right.
Qed.

Lemma Forall_delete {A} (P : A -> Prop) (l : list A) i :
  Forall P l -> Forall P (delete i l).
Proof.
  intros H. apply List.Forall_forall. intros x Hx%In_delete.
  by apply (proj1 (List.Forall_forall P l) H).
Qed.

Lemma ascending_delete l i : ascending l -> ascending (delete i l).
Proof.
  revert i. induction l as [|a l IH]; intros [|i]; simpl; try done.
  - by intros [_ H].
  - intros [Ha Hl]. split; [by apply Forall_delete|by apply IH].
Qed.

Lemma ascending_map_filter {A} (f : A -> Z) (p : A -> bool) (l : list A) :
  ascending (map f l) -> ascending (map f (List.filter p l)).
Proof.
  induction l as [|a l IH]; simpl; [done|].
  intros [Ha Hl]. destruct (p a); simpl; [|by apply IH].
  split; [|by apply IH].
  apply List.Forall_forall. intros x (y & <- & [Hy _]%filter_In)%in_map_iff.
  apply (proj1 (List.Forall_forall _ _) Ha). by apply in_map.
Qed.

Lemma ascending_handle r s :
  ascending (event_ids s) /\ ascending (booking_ids s) ->
  ascending (event_ids (fst (handle r s)))
  /\ ascending (booking_ids (fst (handle r s))).
Proof.
  intros [He Hb].
  destruct (handle_effect r s)
    as [r|body cap _ _|id update i e _ Hlk|id i e _ _
        |body now eid ev n _ _ _ _ _|id update idx cur _ Hcur _
        |id update idx cur ev n _ Hcur _ _ _ _|id idx _];
    [done|..]; unfold event_ids, booking_ids in *; cbn [events bookings].
  - rewrite map_app. split; [|done]. apply ascending_snoc; [done|].
    intros i Hi. by apply nextId_gt.
  - by rewrite (map_insert_same _ _ _ e) by (done || apply assign_all_id).
  - rewrite map_delete. split; [by apply ascending_delete|].
    by apply ascending_map_filter.
  - rewrite map_app. split; [done|]. apply ascending_snoc; [done|].
    intros i Hi. by apply nextId_gt.
  - by rewrite (map_insert_same _ _ _ cur) by (done || apply apply_contact_id).
  - by rewrite (map_insert_same _ _ _ cur)
      by (done || by rewrite apply_contact_id).
  - rewrite map_delete. split; [done|]. by apply ascending_delete.
Qed.

Lemma ascending_last l m :
  ascending l -> last l = Some m -> forall i, In i l -> (i <= m)%Z.
Proof.
  induction l as [|a l IH]; simpl; [done|].
  intros [Ha Hl] Hlast i Hi.
  destruct l as [|b l'].
  - simpl in Hlast. injection Hlast as <-. destruct Hi as [->|[]]. lia.
  - change (last (b :: l') = Some m) in Hlast.
    destruct Hi as [<-|Hi]; [|by apply IH].
    assert (In m (b :: l')) as Hm.
    { apply list_elem_of_In. by apply last_Some_elem_of. }
    pose proof (proj1 (List.Forall_forall _ _) Ha m Hm). lia.
Qed.

Lemma nextId_last l m : ascending l -> last l = Some m -> nextId l = (m + 1)%Z.
Proof.
  intros Hl Hlast.
  assert (In m l) as Hm by (apply list_elem_of_In; by apply last_Some_elem_of).
  destruct (nextId_max l) as (m' & Hm' & Hmax & ->); [by destruct l|].
  pose proof (ascending_last _ _ Hl Hlast m' Hm').
  specialize (Hmax m Hm). lia.
Qed.

Lemma last_map {A B} (f : A -> B) (l : list A) x :
  last l = Some x -> last (map f l) = Some (f x).
Proof.
  induction l as [|a [|b l] IH]; simpl; try done.
  by intros [= ->].
Qed.

(** X13.  In every reachable storage the events, and the bookings, are
    stored in strictly increasing order of id; so the id the next create
    hands out is the id of the last stored record plus one. *)
Theorem ids_follow_insertion_order boot s :
  reachable boot s ->
  ascending (map Event.id (events s))
  /\ ascending (map Booking.id (bookings s))
  /\ (forall e, last (events s) = Some e ->
        nextId (map Event.id (events s)) = (Event.id e + 1)%Z)
  /\ (forall b, last (bookings s) = Some b ->
        nextId (map Booking.id (bookings s)) = (Booking.id b + 1)%Z).
Proof.
  intros Hreach.
  assert (ascending (event_ids s) /\ ascending (booking_ids s)) as [He Hb].
  { induction Hreach as [|s r _ IH]; [|by apply ascending_handle].
    simpl. repeat split; constructor. }
  split; [done|]. split; [done|]. split.
  - intros e Hlast. apply nextId_last; [done|].
    by apply last_map.
  - intros b Hlast. apply nextId_last; [done|].
    by apply last_map.
Qed.

Lemma ids_follow_insertion_order_witness :
  let body : gmap string value :=
    {[ "title"%string := JStr "Workshop"; "date"%string := JStr "2026-01-15";
       "capacity"%string := JNum (num_of_Z 30) ]} in
  let rs := [POST_events_add body; POST_events_add body; DELETE_event "2"] in
  map Event.id (events (serve rs (init "t0"))) = [1; 3]%Z
  /\ nextId (map Event.id (events (serve rs (init "t0")))) = 4%Z.
Proof.
  intros body rs. split; [reflexivity|].
  destruct (ids_follow_insertion_order "t0" _ (reachable_serve "t0" rs))
    as (_ & _ & H & _).
  exact (H _ eq_refl).
Defined.

(** ** Seat accounting *)

Lemma num_eq_refl_of a b : num_eq a b = true -> num_eq b b = true.
Proof.
  intros H. rewrite <- (num_eq_compat _ _ b H). by rewrite num_eq_sym.
Qed.

Lemma seats_booked_snoc evs bks b id :
  seats_booked (mkState evs (bks ++ [b])) id
  = if num_eq (Booking.eventId b) id
    then num_plus (seats_booked (mkState evs bks) id) (Booking.seats b)
    else seats_booked (mkState evs bks) id.
Proof.
  unfold seats_booked. cbn [bookings].
  by rewrite seats_for_middle, app_nil_r.
Qed.

(** X14.  A successful Booking Create adds exactly the seats of the new
    booking to the sum of the seats booked for its event and leaves the
    seats booked for every other id as they were.  When the seats stored
    for the event and the new seats are whole numbers, and the seats
    booked before and the capacity lie below [2^53], the seats booked
    afterwards do not exceed the capacity of the event. *)
Theorem booking_create_accounting s body now b :
  let s' := fst (handle (POST_bookings body now) s) in
  snd (handle (POST_bookings body now) s)
  = Sent (mkResponse 201 (BookingBody b)) ->
  seats_booked s' (Booking.eventId b)
  = num_plus (seats_booked s (Booking.eventId b)) (Booking.seats b)
  /\ (forall id, num_eq (Booking.eventId b) id = false ->
                 seats_booked s' id = seats_booked s id)
  /\ exists ev,
       List.find (event_has_id (Booking.eventId b)) (events s) = Some ev
       /\ (whole_seats (bookings_for (Booking.eventId b) (bookings s)) ->
           num_lt (seats_booked s (Booking.eventId b)) two53 = true ->
           whole (Booking.seats b) = true ->
           num_lt (Event.capacity ev) two53 = true ->
           num_le (seats_booked s' (Booking.eventId b)) (Event.capacity ev)
           = true).
Proof.
  intros s'. subst s'.
  destruct (truthy (prop body "eventId") && truthy (prop body "name")
            && truthy (prop body "email") && truthy (prop body "seats")) eqn:Ht.
  - destruct (Number (prop body "eventId")) as [eid|] eqn:Heid.
    + rewrite (post_bookings_valid _ _ _ _ Ht Heid).
      destruct (List.find _ (events s)) as [ev|] eqn:Hev; [|done].
      destruct (Number (prop body "seats")) as [n|]; [|done].
      destruct (num_gt _ _) eqn:Hgt; [done|].
      cbv zeta. cbn [fst snd]. intros [= <-]. cbn [Booking.eventId Booking.seats].
      apply find_some in Hev as Hev'. destruct Hev' as [_ Hid].
      pose proof (num_eq_refl_of _ _ Hid) as Hrefl.
      assert (Hs : forall evs, seats_booked (mkState evs (bookings s)) eid
                               = seats_booked s eid) by done.
      rewrite !seats_booked_snoc. cbn [Booking.eventId Booking.seats].
      rewrite Hrefl, Hs. split; [done|]. split.
      * intros id Hne. rewrite seats_booked_snoc.
        cbn [Booking.eventId]. by rewrite Hne.
      * exists ev. split; [done|]. intros Hw Hlt Hn Hcap.
        by apply admitted_within.
    + rewrite (post_bookings_throwing _ _ _ Ht Heid).
      by destruct (is_nil (events s)).
  - by rewrite (post_bookings_invalid _ _ _ Ht).
Qed.

Lemma booking_create_accounting_witness :
  let body : gmap string value :=
    {[ "eventId"%string := JNum (num_of_Z 1); "name"%string := JStr "Ravi";
       "email"%string := JStr "ravi@example.com";
       "seats"%string := JNum (num_of_Z 99) ]} in
  seats_booked (fst (handle (POST_bookings body "t1") (init "t0"))) (num_of_Z 1)
  = num_plus (seats_booked (init "t0") (num_of_Z 1)) (num_of_Z 99).
Proof.
  intros body.
  exact (proj1 (booking_create_accounting (init "t0") body "t1"
                  (Booking.mk 2 (num_of_Z 1) (JStr "Ravi")
                     (JStr "ravi@example.com") (JStr "") (num_of_Z 99) "t1")
                  ltac:(by vm_compute))).
Defined.

(** X15.  Booking Delete gives the seats back: the seats booked for the
    event of the deleted booking, before the delete, are those booked
    after it plus the seats of the deleted booking; for every other id
    nothing changes. *)
Theorem booking_delete_frees_seats s id_param idx cur :
  let s' := fst (handle (DELETE_booking id_param) s) in
  findIndex (booking_has_id (StringToNumber id_param)) (bookings s) = Some idx ->
  bookings s !! idx = Some cur ->
  forall id,
    seats_booked s id
    = if num_eq (Booking.eventId cur) id
      then num_plus (seats_booked s' id) (Booking.seats cur)
      else seats_booked s' id.
Proof.
  intros s' Hidx Hcur id. subst s'.
  rewrite (delete_booking_found _ _ _ Hidx).
  destruct (list_split_at _ _ _ Hcur) as (l1 & l2 & Hl & Hdel & _).
  unfold seats_booked. cbn [fst bookings].
  by rewrite Hdel, Hl, seats_for_middle.
Qed.

Lemma booking_delete_frees_seats_witness :
  seats_booked (init "t0") (num_of_Z 1)
  = num_plus
      (seats_booked (fst (handle (DELETE_booking "1") (init "t0"))) (num_of_Z 1))
      (num_of_Z 1).
Proof.
  exact (booking_delete_frees_seats (init "t0") "1" 0%nat (sample_booking "t0")
           ltac:(by vm_compute) eq_refl (num_of_Z 1)).
Defined.



(** X17.  On a reachable storage, after an accepted seats update the
    seats booked for the booking's event are the seats of the event's
    other bookings plus the new value, and the seats booked for every
    other id are as they were.  When the other bookings' seats and the
    new value are whole numbers, and the other bookings' sum and the
    capacity lie below [2^53], the seats booked afterwards do not exceed
    the capacity of the event. *)
Theorem booking_seats_update_accounting boot s id_param update idx cur ev n b' :
  let s' := fst (handle (PUT_booking id_param update) s) in
  let others := other_bookings cur (bookings s) in
  reachable boot s ->
  findIndex (booking_has_id (StringToNumber id_param)) (bookings s) = Some idx ->
  bookings s !! idx = Some cur ->
  is_undefined (prop update "seats") = false ->
  List.find (event_has_id (Booking.eventId cur)) (events s) = Some ev ->
  Number (prop update "seats") = Some n ->
  snd (handle (PUT_booking id_param update) s)
  = Sent (mkResponse 200 (BookingBody b')) ->
  seats_booked s' (Booking.eventId cur) = num_plus (total_seats others) n
  /\ (forall id, num_eq (Booking.eventId cur) id = false ->
                 seats_booked s' id = seats_booked s id)
  /\ (whole_seats others ->
      num_lt (total_seats others) two53 = true ->
      whole n = true ->
      num_lt (Event.capacity ev) two53 = true ->
      num_le (seats_booked s' (Booking.eventId cur)) (Event.capacity ev)
      = true).
Proof.
  intros s' others Hreach Hidx Hcur Hu Hev Hn. subst s' others.
  destruct (reachable_well_formed _ _ Hreach) as (_ & Hnd & _).
  rewrite (put_booking_found _ _ _ _ _ Hidx Hcur). cbv zeta.
  rewrite Hu, Hev, Hn.
  destruct (num_gt _ (Event.capacity ev)) eqn:Hgt; [done|].
  intros _. cbn [fst].
  destruct (list_split_at _ _ _ Hcur) as (l1 & l2 & Hl & _ & Hins).
  apply find_some in Hev as [_ Hid].
  pose proof (num_eq_refl_of _ _ Hid) as Hrefl.
  unfold seats_booked. cbn [bookings].
  rewrite Hins. rewrite Hl in Hgt |- *.
  rewrite other_bookings_split in Hgt |- *
    by (unfold booking_ids in Hnd; by rewrite Hl in Hnd).
  rewrite !seats_for_middle, apply_contact_eventId, apply_contact_set_seats.
  cbn [Booking.set_seats Booking.eventId]. rewrite Hrefl.
  split; [done|]. split.
  - intros id Hne. by rewrite !seats_for_middle, apply_contact_eventId; cbn;
      rewrite Hne.
  - intros Hw Hlt Hwn Hcap. by apply admitted_within.
Qed.

Lemma booking_seats_update_accounting_witness :
  let update : gmap string value := {[ "seats"%string := JNum (num_of_Z 5) ]} in
  seats_booked (fst (handle (PUT_booking "1" update) (init "t0"))) (num_of_Z 1)
  = num_of_Z 5.
Proof.
  intros update.
  exact (proj1 (booking_seats_update_accounting "t0" (init "t0") "1" update
                  0%nat (sample_booking "t0") sample_event (num_of_Z 5)
                  (Booking.set_seats (num_of_Z 5) (sample_booking "t0"))
                  (reachable_init "t0") ltac:(by vm_compute) eq_refl eq_refl
                  eq_refl eq_refl ltac:(by vm_compute))).
Defined.

(** ** Repeating an update *)

Lemma findIndex_insert {A} (p : A -> bool) l i y :
  findIndex p l = Some i -> p y = true -> findIndex p (<[i := y]> l) = Some i.
Proof.
  revert i. induction l as [|x l IH]; intros i; [done|]. simpl.
  destruct (p x) eqn:Hx.
  - intros [= <-] Hy. simpl. by rewrite Hy.
  - destruct (findIndex p l) as [j|]; [|done]. simpl.
    intros [= <-] Hy. simpl. by rewrite Hx, (IH j eq_refl Hy).
Qed.

Lemma updated_updated update k old :
  updated update k (updated update k old) = updated update k old.
Proof. unfold updated. by destruct (is_undefined (prop update k)). Qed.

Lemma assign_all_again update e :
  assign_all update allowed (fst (assign_all update allowed e))
  = assign_all update allowed e.
Proof.
  destruct (Number (prop update "capacity")) as [c|] eqn:Hc.
  - rewrite !(assign_all_coerced _ _ c Hc). cbn [fst].
    cbn [Event.id Event.title Event.description Event.date Event.capacity
           Event.location].
    rewrite !updated_updated.
    by destruct (is_undefined (prop update "capacity")).
  - rewrite !(assign_all_thrown _ _ Hc). cbn [fst].
    cbn [Event.id Event.title Event.description Event.date Event.capacity
           Event.location].
    by rewrite !updated_updated.
Qed.

Lemma apply_contact_again update n b :
  apply_contact update (apply_contact update b) = apply_contact update b
  /\ apply_contact update
       (Booking.set_seats n (apply_contact update (Booking.set_seats n b)))
     = apply_contact update (Booking.set_seats n b).
Proof.
  unfold apply_contact; simpl. by contact_cases update.
Qed.

Lemma other_bookings_insert cur cur' l i :
  l !! i = Some cur ->
  Booking.id cur' = Booking.id cur ->
  Booking.eventId cur' = Booking.eventId cur ->
  other_bookings cur' (<[i := cur']> l) = other_bookings cur l.
Proof.
  intros Hi Hid Hev.
  destruct (list_split_at _ _ _ Hi) as (l1 & l2 & Hl & _ & Hins).
  rewrite Hins. rewrite Hl. unfold other_bookings.
  rewrite !List.filter_app. simpl. rewrite Hid, Hev, !Z.eqb_refl.
  by rewrite !andb_false_r.
Qed.

(** X18.  Event Update is idempotent: sending the same update for the
    same id a second time gives the same answer as the first time and
    leaves the storage as the first request left it, whether the event
    exists or not and whether the capacity could be coerced or not. *)
Theorem event_update_idempotent s id_param update :
  handle (PUT_event id_param update)
    (fst (handle (PUT_event id_param update) s))
  = handle (PUT_event id_param update) s.
Proof.
  destruct (findIndex (event_has_id (StringToNumber id_param)) (events s))
    as [idx|] eqn:Hidx.
  - destruct (findIndex_Some _ _ _ Hidx) as (e & He & Hid & _).
    rewrite (put_event_found _ _ _ _ _ Hidx He). cbn [fst].
    erewrite put_event_found; cycle 1.
    + cbn [events]. apply findIndex_insert; [done|].
      unfold event_has_id in *. by rewrite assign_all_id.
    + cbn [events]. apply list_lookup_insert_eq. by eapply lookup_lt_Some.
    + cbn [events bookings].
      by rewrite assign_all_again, list_insert_insert_eq.
  - by rewrite !(put_event_unknown _ _ _ Hidx).
Qed.

(** X19.  Booking Update is idempotent: sending the same update for the
    same id a second time gives the same answer as the first time
    (accepted, rejected for capacity, event missing, booking missing or
    interrupted) and leaves the storage as the first request left it. *)
Theorem booking_update_idempotent s id_param update :
  handle (PUT_booking id_param update)
    (fst (handle (PUT_booking id_param update) s))
  = handle (PUT_booking id_param update) s.
Proof.
  destruct (findIndex (booking_has_id (StringToNumber id_param)) (bookings s))
    as [idx|] eqn:Hidx.
  - destruct (findIndex_Some _ _ _ Hidx) as (cur & Hcur & Hid & _).
    assert (Hfin : forall seated,
      Booking.id seated = Booking.id cur ->
      Booking.eventId seated = Booking.eventId cur ->
      let b' := apply_contact update seated in
      let s' := mkState (events s) (<[idx := b']> (bookings s)) in
      findIndex (booking_has_id (StringToNumber id_param)) (bookings s')
      = Some idx
      /\ bookings s' !! idx = Some b'
      /\ other_bookings b' (bookings s') = other_bookings cur (bookings s)
      /\ Booking.eventId b' = Booking.eventId cur).
    { intros seated H1 H2 b' s'. subst b' s'. cbn [bookings].
      split; [|split; [|split]].
      - apply findIndex_insert; [done|].
        unfold booking_has_id in *. by rewrite apply_contact_id, H1.
      - apply list_lookup_insert_eq. by eapply lookup_lt_Some.
      - apply other_bookings_insert; [done | |].
        + by rewrite apply_contact_id.
        + by rewrite apply_contact_eventId.
      - by rewrite apply_contact_eventId. }
    rewrite (put_booking_found _ _ _ _ _ Hidx Hcur). cbv zeta.
    destruct (is_undefined (prop update "seats")) eqn:Hu.
    { cbn [fst].
      destruct (Hfin cur eq_refl eq_refl) as (Hi' & Hc' & _).
      rewrite (put_booking_found _ _ _ _ _ Hi' Hc'). cbv zeta.
      rewrite Hu. cbn [events bookings].
      by rewrite (proj1 (apply_contact_again update NaN cur)),
        list_insert_insert_eq. }
    destruct (List.find _ (events s)) as [ev|] eqn:Hev.
    2:{ cbn [fst]. rewrite (put_booking_found _ _ _ _ _ Hidx Hcur). cbv zeta.
        by rewrite Hu, Hev. }
    destruct (Number (prop update "seats")) as [n|] eqn:Hn.
    2:{ cbn [fst]. rewrite (put_booking_found _ _ _ _ _ Hidx Hcur). cbv zeta.
        by rewrite Hu, Hev, Hn. }
    destruct (num_gt _ _) eqn:Hgt.
    { cbn [fst]. rewrite (put_booking_found _ _ _ _ _ Hidx Hcur). cbv zeta.
      by rewrite Hu, Hev, Hn, Hgt. }
    cbn [fst].
    destruct (Hfin (Booking.set_seats n cur) eq_refl eq_refl)
      as (Hi' & Hc' & Ho & He').
    rewrite (put_booking_found _ _ _ _ _ Hi' Hc'). cbv zeta.
    rewrite Hu, He', Ho. cbn [events bookings]. rewrite Hev, Hn, Hgt.
    by rewrite (proj2 (apply_contact_again update n cur)),
      list_insert_insert_eq.
  - assert (handle (PUT_booking id_param update) s = (s, NotFound_booking))
      as Hh.
    { apply put_booking_unknown, find_none_iff. by apply findIndex_None. }
    by rewrite !Hh.
Qed.

(** ** Lists and single records agree *)

(** X20.  On a reachable storage the two list endpoints answer 200 with
    the stored arrays, and every record they list is the one that the
    corresponding by-id endpoint returns for a path parameter that
    converts to its id: no listed record is shadowed by another one. *)
Theorem listed_records_can_be_fetched boot s :
  reachable boot s ->
  handle GET_events s = (s, Sent (mkResponse 200 (EventList (events s))))
  /\ handle GET_bookings s
     = (s, Sent (mkResponse 200 (BookingList (bookings s))))
  /\ (forall e id_param,
        In e (events s) ->
        event_has_id (StringToNumber id_param) e = true ->
        handle (GET_event id_param) s
        = (s, Sent (mkResponse 200 (EventBody e))))
  /\ (forall b id_param,
        In b (bookings s) ->
        booking_has_id (StringToNumber id_param) b = true ->
        handle (GET_booking id_param) s
        = (s, Sent (mkResponse 200 (BookingBody b)))).
Proof.
  intros Hreach.
  destruct (reachable_well_formed _ _ Hreach) as (Hne & Hnb & _).
  split; [done|]. split; [done|]. split.
  - intros e id_param Hin Hid. rewrite get_event_eq.
    destruct (findIndex_event _ _ _ Hne Hin Hid) as (i & Hi & He).
    destruct (findIndex_Some _ _ _ Hi) as (x & Hx & _ & Hf).
    rewrite Hf. congruence.
  - intros b id_param Hin Hid. rewrite get_booking_eq.
    destruct (findIndex_booking _ _ _ Hnb Hin Hid) as (i & Hi & Hb).
    destruct (findIndex_Some _ _ _ Hi) as (x & Hx & _ & Hf).
    rewrite Hf. congruence.
Qed.

Lemma listed_records_can_be_fetched_witness :
  let body : gmap string value :=
    {[ "title"%string := JStr "Workshop"; "date"%string := JStr "2026-01-15";
       "capacity"%string := JNum (num_of_Z 30) ]} in
  let s := serve [POST_events_add body; DELETE_event "1"] (init "t0") in
  let e := Event.mk 2 (JStr "Workshop") (JStr "") (JStr "2026-01-15")
             (num_of_Z 30) (JStr "") in
  handle (GET_event " 0x2 ") s = (s, Sent (mkResponse 200 (EventBody e))).
Proof.
  intros body s e.
  destruct (listed_records_can_be_fetched "t0" s
              (reachable_serve "t0" [POST_events_add body; DELETE_event "1"]))
    as (_ & _ & H & _).
  apply H; [left|]; reflexivity.
Defined.
